(** * revsynth-researcher: the search-campaign controller of [main.go]

    A shallow embedding of [main.go] and the properties of its rendering
    functions, its cost evaluator and its campaign loop.

    Conventions.
    - A Go [int] is a [Z]; arithmetic on it wraps around at 64 bits
      ([wrap]).
    - A Go [string] is a [string] (a sequence of bytes), a slice is a [list].
    - A [float64] is a primitive float; the program only copies them.
    - The synthesizer ([aco]) and the repository behind the [Repository]
      interface are external: they are oracles of the [World] the program
      runs in, and every interaction with them is recorded in a trace of
      [Event]s.  [log.Fatalln] ends the process. *)

From Stdlib Require Import ZArith List String Ascii Bool Lia Permutation.
From Stdlib Require Import DecimalString DecimalPos DecimalZ Floats.
Import ListNotations.

Local Open Scope string_scope.
Local Open Scope list_scope.
Local Open Scope Z_scope.

(* ================================================================== *)
(** * Go's [int] *)

Definition int_bits : Z := 64.
Definition max_int : Z := 2 ^ (int_bits - 1) - 1.
Definition min_int : Z := - 2 ^ (int_bits - 1).

(** Two's complement wrap-around of an arithmetic result. *)
Definition wrap (z : Z) : Z :=
  (z + 2 ^ (int_bits - 1)) mod 2 ^ int_bits - 2 ^ (int_bits - 1).

(* ================================================================== *)
(** * The standard library functions the program calls *)

Module strconv.

(** [strconv.Itoa]: the decimal rendering of an integer, with a leading
    minus sign for a negative one and no leading zeros. *)
Definition Itoa (i : Z) : string := NilZero.string_of_int (Z.to_int i).

End strconv.

Module strings.

(** [strings.Join]: the empty string for no element, the element for
    one, and otherwise the first element followed by each further one
    with the separator written before it. *)
Definition Join (elems : list string) (sep : string) : string :=
  match elems with
  | [] => ""
  | [e] => e
  | e :: rest => fold_left (fun b s => b ++ sep ++ s)%string rest e
  end.

End strings.

(* ================================================================== *)
(** * The collaborators' data ([circuit], [aco]) *)

Module circuit.

(** The [circuit.Gate] interface as the program consumes it: the three
    methods [TypeName], [TargetBits] and [ControlBits]. *)
Record Gate := {
  TypeName : string;
  TargetBits : list Z;
  ControlBits : list Z
}.

(** The gate constructors the program wires in. *)
Inductive GateFactory := NewCnotGateFactory | NewFredkinGateFactory.

Record TruthVector := {
  Inputs : list (list Z);
  Vector : list Z
}.

End circuit.

Module aco.

(** [aco.Config].  The type of [DepositStrength] is declared in package
    [aco]; the program stores the untyped constant 100 in it, which is
    kept here as the integer it denotes. *)
Record Config := {
  NumOfAnts : Z;
  NumOfIterations : Z;
  Alpha : float;
  Beta : float;
  EvaporationRate : float;
  DepositStrength : Z;
  LocalLoops : Z;
  SearchDepth : Z
}.

(** What [Synthesise] returns, as far as the program reads it. *)
Record SynthesisResult := {
  Complexity : Z;
  Gates : list circuit.Gate
}.

End aco.

(* ================================================================== *)
(** * Package [main]: data *)

Record AlgConfig := {
  NumOfAnts : Z;
  NumOfIterations : Z;
  Alpha : float;
  Beta : float;
  EvaporationRate : float;
  LocalLoops : Z;
  SearchDepth : Z
}.

Record Input := {
  TargetQuantumCost : Z;
  AcoConfigs : list AlgConfig;
  InputTT : list (list Z);
  TargetVector : list Z
}.

Record Solution := {
  QuantumCost : Z;
  SolTargetVector : list Z;
  SolGates : list circuit.Gate
}.

Definition depositStrengthDefault : Z := 100.

(* ================================================================== *)
(** * Rendering *)

(** [vectorToStr]: the range loop appends one rendering per element. *)
Definition vectorToStr (v : list Z) : string :=
  let vss := fold_left (fun vss el => vss ++ [strconv.Itoa el]) v [] in
  ("[" ++ strings.Join vss ", " ++ "]")%string.

(** The string [gatesToStr] builds for [gates[i]]. *)
Definition gateS (g : circuit.Gate) : string :=
  (circuit.TypeName g ++ "(" ++ vectorToStr (circuit.TargetBits g) ++ ", "
     ++ vectorToStr (circuit.ControlBits g) ++ ")")%string.

(** The loop of [gatesToStr], [for i := len(gates) - 1; i >= 0; i--].
    [n] is [i + 1]; indexing outside the slice panics ([None]). *)
Fixpoint gatesToStr_loop (gates : list circuit.Gate) (n : nat)
    (gatesSS : list string) : option (list string) :=
  match n with
  | O => Some gatesSS
  | S i =>
      match nth_error gates i with
      | Some g => gatesToStr_loop gates i (gatesSS ++ [gateS g])
      | None => None
      end
  end.

Definition gatesToStr (gates : list circuit.Gate) : option string :=
  match gatesToStr_loop gates (List.length gates) [] with
  | Some gatesSS => Some (strings.Join gatesSS ", ")
  | None => None
  end.

(* ================================================================== *)
(** * The cost evaluator *)

(** A call either returns or ends the process through [log.Fatalln]. *)
Inductive Fallible (A : Type) : Type :=
| Returns (a : A)
| Fatal (msg : string).
Arguments Returns {A} a.
Arguments Fatal {A} msg.

(** The line [log.Println] and [log.Fatalln] write: the operands
    separated by spaces. *)
Definition Sprintln (operands : list string) : string :=
  strings.Join operands " ".

(** The range loop of [calcQuantumCost], [qc] being the running sum. *)
Fixpoint calcQuantumCost_loop (gates : list circuit.Gate) (qc : Z)
    : Fallible Z :=
  match gates with
  | [] => Returns qc
  | gate :: rest =>
      if circuit.TypeName gate =? "fredkin" then
        calcQuantumCost_loop rest (wrap (qc + 5))
      else if circuit.TypeName gate =? "cnot" then
        calcQuantumCost_loop rest (wrap (qc + 1))
      else
        Fatal (Sprintln ["unknown gate type:"; circuit.TypeName gate])
  end%string.

Definition calcQuantumCost (gates : list circuit.Gate) : Fallible Z :=
  calcQuantumCost_loop gates 0.

(* ================================================================== *)
(** * The world the campaign runs in *)

(** What the process does that can be observed from outside. *)
Inductive Event :=
| EvLog (line : string)
| EvSynthesise (conf : aco.Config) (factories : list circuit.GateFactory)
    (target : circuit.TruthVector) (res : aco.SynthesisResult)
| EvSaveSolution (s : Solution) (err : option string)
| EvFatal (line : string).

(** The collaborators.  Each answers a call knowing everything that
    happened before it, so a synthesizer that is stochastic or a
    repository that fails now and then is one such world.  An [error] is
    [None] for [nil] and otherwise its message. *)
Record World := {
  aco_Synthesise : list Event -> aco.Config -> list circuit.GateFactory ->
                   circuit.TruthVector -> aco.SynthesisResult;
  repo_SaveSolution : list Event -> Solution -> option string
}.

(** A piece of the program run after the events [h]: the events it adds
    and its value, [None] when the process exited. *)
Record Run (A : Type) := {
  emitted : list Event;
  result : option A
}.
Arguments emitted {A} r.
Arguments result {A} r.

Definition Prog (A : Type) : Type := list Event -> Run A.

Definition ret {A} (a : A) : Prog A :=
  fun _ => {| emitted := []; result := Some a |}.

Definition bind {A B} (c : Prog A) (k : A -> Prog B) : Prog B :=
  fun h =>
    let r := c h in
    match result r with
    | Some a =>
        let r' := k a (h ++ emitted r) in
        {| emitted := emitted r ++ emitted r'; result := result r' |}
    | None => {| emitted := emitted r; result := None |}
    end.

Notation "x <- c ;; k" := (bind c (fun x => k))
  (at level 61, c at next level, right associativity).
Notation "c ;; k" := (bind c (fun _ => k))
  (at level 61, right associativity).

Definition Println (operands : list string) : Prog unit :=
  fun _ => {| emitted := [EvLog (Sprintln operands)]; result := Some tt |}.

Definition Fatalln {A} (operands : list string) : Prog A :=
  fun _ => {| emitted := [EvFatal (Sprintln operands)]; result := None |}.

(** A call of a function that may end the process. *)
Definition call {A} (c : Fallible A) : Prog A :=
  fun _ =>
    match c with
    | Returns a => {| emitted := []; result := Some a |}
    | Fatal line => {| emitted := [EvFatal line]; result := None |}
    end.

(** [aco.NewSynthesizer(conf, factories, logger).Synthesise(target)]. *)
Definition Synthesise (w : World) (conf : aco.Config)
    (factories : list circuit.GateFactory) (target : circuit.TruthVector)
    : Prog aco.SynthesisResult :=
  fun h =>
    let res := aco_Synthesise w h conf factories target in
    {| emitted := [EvSynthesise conf factories target res];
       result := Some res |}.

(** [repo.SaveSolution(ctx, s)]. *)
Definition SaveSolution (w : World) (s : Solution) : Prog (option string) :=
  fun h =>
    let err := repo_SaveSolution w h s in
    {| emitted := [EvSaveSolution s err]; result := Some err |}.

(* ================================================================== *)
(** * The campaign: [main] *)

(** The [aco.Config] built for a configuration. *)
Definition acoConf (acoConfig : AlgConfig) : aco.Config :=
  {| aco.NumOfAnts := NumOfAnts acoConfig;
     aco.NumOfIterations := NumOfIterations acoConfig;
     aco.Alpha := Alpha acoConfig;
     aco.Beta := Beta acoConfig;
     aco.EvaporationRate := EvaporationRate acoConfig;
     aco.DepositStrength := depositStrengthDefault;
     aco.LocalLoops := LocalLoops acoConfig;
     aco.SearchDepth := SearchDepth acoConfig |}.

Definition gateFactories : list circuit.GateFactory :=
  [circuit.NewCnotGateFactory; circuit.NewFredkinGateFactory].

Definition truthVector (inp : Input) : circuit.TruthVector :=
  {| circuit.Inputs := InputTT inp; circuit.Vector := TargetVector inp |}.

(** The body of the inner loop, for one configuration.  A [continue]
    ends the body. *)
Definition runConfig (w : World) (inp : Input) (acoConfig : AlgConfig)
    : Prog unit :=
  Println ["Running next config"] ;;
  let conf := acoConf acoConfig in
  res <- Synthesise w conf gateFactories (truthVector inp) ;;
  if aco.Complexity res >? 0 then
    Println ["Skipping as complexity is"; strconv.Itoa (aco.Complexity res)]
  else
    qc <- call (calcQuantumCost (aco.Gates res)) ;;
    if qc >? TargetQuantumCost inp then
      Println ["Skipping as quantum cost is"; strconv.Itoa qc]
    else
      err <- SaveSolution w {| QuantumCost := qc;
                               SolTargetVector := TargetVector inp;
                               SolGates := aco.Gates res |} ;;
      match err with
      | Some e => Fatalln ["Failed to save:"; e]
      | None => ret tt
      end.

(** [for _, acoConfig := range in.AcoConfigs]. *)
Fixpoint forConfigs (w : World) (inp : Input) (acoConfigs : list AlgConfig)
    : Prog unit :=
  match acoConfigs with
  | [] => ret tt
  | acoConfig :: rest => runConfig w inp acoConfig ;; forConfigs w inp rest
  end.

(** The body of the outer loop: one round. *)
Definition iteration (w : World) (inp : Input) : Prog unit :=
  Println ["Running next iteration"] ;;
  forConfigs w inp (AcoConfigs inp).

(** The first [n] turns of [for { ... }]. *)
Fixpoint iterations (w : World) (inp : Input) (n : nat) : Prog unit :=
  match n with
  | O => ret tt
  | S k => iterations w inp k ;; iteration w inp
  end.

(** The campaign on the loaded input, observed for [n] rounds: the loop
    of [main] has no exit, so the program is the family of these runs. *)
Definition main (w : World) (inp : Input) (n : nat) : Run unit :=
  iterations w inp n [].

(* ================================================================== *)
(** * Vocabulary of the properties *)

(** The gate types the cost table knows. *)
Definition recognized (g : circuit.Gate) : Prop :=
  circuit.TypeName g = "cnot" \/ circuit.TypeName g = "fredkin".

(** The number of gates of a type in a sequence. *)
Definition count_type (name : string) (gates : list circuit.Gate) : Z :=
  Z.of_nat (List.length
              (filter (fun g => circuit.TypeName g =? name)%string gates)).

(** The weighted count of a sequence of gates. *)
Definition weighted (gates : list circuit.Gate) : Z :=
  1 * count_type "cnot" gates + 5 * count_type "fredkin" gates.

(** A slice of gates is a value of the program: its elements are
    interface values of two 8-byte words each, stored in one array of the
    64-bit address space. *)
Definition gate_bytes : Z := 16.
Definition in_memory (gates : list circuit.Gate) : Prop :=
  gate_bytes * Z.of_nat (List.length gates) <= 2 ^ int_bits.

(** The result the synthesizer gives to [runConfig] started after [h]. *)
Definition synthesised (w : World) (inp : Input) (acoConfig : AlgConfig)
    (h : list Event) : aco.SynthesisResult :=
  aco_Synthesise w (h ++ [EvLog (Sprintln ["Running next config"])])
    (acoConf acoConfig) gateFactories (truthVector inp).

(** The solutions handed to the repository. *)
Fixpoint handed (evs : list Event) : list Solution :=
  match evs with
  | [] => []
  | EvSaveSolution s _ :: rest => s :: handed rest
  | _ :: rest => handed rest
  end.

(** The configurations handed to the synthesizer, in call order. *)
Fixpoint synth_confs (evs : list Event) : list aco.Config :=
  match evs with
  | [] => []
  | EvSynthesise conf _ _ _ :: rest => conf :: synth_confs rest
  | _ :: rest => synth_confs rest
  end.

Definition is_fatal (e : Event) : bool :=
  match e with EvFatal _ => true | _ => false end.

(** No fatal condition has been raised. *)
Definition fatal_free (evs : list Event) : Prop :=
  forallb (fun e => negb (is_fatal e)) evs = true.

(** The events of one complete evaluate-and-filter step of a
    configuration: the synthesizer call, then a rejection or a successful
    hand-over to the repository. *)
Inductive step_events (inp : Input) (acoConfig : AlgConfig)
    : list Event -> Prop :=
| step_reject_complexity res :
    aco.Complexity res > 0 ->
    step_events inp acoConfig
      [EvLog (Sprintln ["Running next config"]);
       EvSynthesise (acoConf acoConfig) gateFactories (truthVector inp) res;
       EvLog (Sprintln ["Skipping as complexity is";
                        strconv.Itoa (aco.Complexity res)])]
| step_reject_cost res qc :
    aco.Complexity res <= 0 ->
    calcQuantumCost (aco.Gates res) = Returns qc ->
    qc > TargetQuantumCost inp ->
    step_events inp acoConfig
      [EvLog (Sprintln ["Running next config"]);
       EvSynthesise (acoConf acoConfig) gateFactories (truthVector inp) res;
       EvLog (Sprintln ["Skipping as quantum cost is"; strconv.Itoa qc])]
| step_accept res qc :
    aco.Complexity res <= 0 ->
    calcQuantumCost (aco.Gates res) = Returns qc ->
    qc <= TargetQuantumCost inp ->
    step_events inp acoConfig
      [EvLog (Sprintln ["Running next config"]);
       EvSynthesise (acoConf acoConfig) gateFactories (truthVector inp) res;
       EvSaveSolution {| QuantumCost := qc;
                         SolTargetVector := TargetVector inp;
                         SolGates := aco.Gates res |} None].

(** The events of one round: every configuration's step, in load order. *)
Inductive round_events (inp : Input) : list Event -> Prop :=
| round_intro steps :
    Forall2 (step_events inp) (AcoConfigs inp) steps ->
    round_events inp
      (EvLog (Sprintln ["Running next iteration"]) :: List.concat steps).

(** The events of [n] rounds, one after the other. *)
Inductive campaign_events (inp : Input) : nat -> list Event -> Prop :=
| campaign_O : campaign_events inp O []
| campaign_S n evs r :
    campaign_events inp n evs ->
    round_events inp r ->
    campaign_events inp (S n) (evs ++ r).

(** What [runConfig] does before it looks at the result [res]. *)
Definition step_head (inp : Input) (acoConfig : AlgConfig)
    (res : aco.SynthesisResult) : list Event :=
  [EvLog (Sprintln ["Running next config"]);
   EvSynthesise (acoConf acoConfig) gateFactories (truthVector inp) res].

(** The solution built from an accepted result. *)
Definition solution_of (inp : Input) (res : aco.SynthesisResult) (qc : Z)
    : Solution :=
  {| QuantumCost := qc;
     SolTargetVector := TargetVector inp;
     SolGates := aco.Gates res |}.

(** The five ways through [runConfig], started after [h] in [w]. *)
Inductive step_run (w : World) (inp : Input) (c : AlgConfig)
    (h : list Event) : Run unit -> Prop :=
| run_reject_complexity res :
    res = synthesised w inp c h ->
    aco.Complexity res > 0 ->
    step_run w inp c h
      {| emitted := step_head inp c res
                    ++ [EvLog (Sprintln ["Skipping as complexity is";
                                         strconv.Itoa (aco.Complexity res)])];
         result := Some tt |}
| run_unknown_gate res line :
    res = synthesised w inp c h ->
    aco.Complexity res <= 0 ->
    calcQuantumCost (aco.Gates res) = Fatal line ->
    step_run w inp c h
      {| emitted := step_head inp c res ++ [EvFatal line];
         result := None |}
| run_reject_cost res qc :
    res = synthesised w inp c h ->
    aco.Complexity res <= 0 ->
    calcQuantumCost (aco.Gates res) = Returns qc ->
    qc > TargetQuantumCost inp ->
    step_run w inp c h
      {| emitted := step_head inp c res
                    ++ [EvLog (Sprintln ["Skipping as quantum cost is";
                                         strconv.Itoa qc])];
         result := Some tt |}
| run_saved res qc :
    res = synthesised w inp c h ->
    aco.Complexity res <= 0 ->
    calcQuantumCost (aco.Gates res) = Returns qc ->
    qc <= TargetQuantumCost inp ->
    repo_SaveSolution w (h ++ step_head inp c res) (solution_of inp res qc)
    = None ->
    step_run w inp c h
      {| emitted := step_head inp c res
                    ++ [EvSaveSolution (solution_of inp res qc) None];
         result := Some tt |}
| run_save_failed res qc e :
    res = synthesised w inp c h ->
    aco.Complexity res <= 0 ->
    calcQuantumCost (aco.Gates res) = Returns qc ->
    qc <= TargetQuantumCost inp ->
    repo_SaveSolution w (h ++ step_head inp c res) (solution_of inp res qc)
    = Some e ->
    step_run w inp c h
      {| emitted := step_head inp c res
                    ++ [EvSaveSolution (solution_of inp res qc) (Some e);
                        EvFatal (Sprintln ["Failed to save:"; e])];
         result := None |}.

(** No call of the repository has returned an error. *)
Definition no_failed_save (evs : list Event) : Prop :=
  forall s e, ~ In (EvSaveSolution s (Some e)) evs.

(** The acceptance rule with the test [complexity == 0], for the step of
    configuration [c] started after [h]. *)
Definition accepts_iff_exact (w : World) (inp : Input) (c : AlgConfig)
    (h : list Event) : Prop :=
  handed (emitted (runConfig w inp c h)) <> []
  <-> (aco.Complexity (synthesised w inp c h) = 0
       /\ exists qc,
            calcQuantumCost (aco.Gates (synthesised w inp c h)) = Returns qc
            /\ qc <= TargetQuantumCost inp).

(** A run that ends with the failed hand-over of [s]: the error [e] and
    the fatal line are its last events, and it is the first failure. *)
Definition ends_with_failed_save (r : Run unit) (s : Solution) (e : string)
    : Prop :=
  result r = None
  /\ exists pre,
       emitted r = pre ++ [EvSaveSolution s (Some e);
                           EvFatal (Sprintln ["Failed to save:"; e])]
       /\ no_failed_save pre.

(* ================================================================== *)
(** * Sample data *)

Definition cnot_gate : circuit.Gate :=
  {| circuit.TypeName := "cnot";
     circuit.TargetBits := [1]; circuit.ControlBits := [0] |}.

Definition fredkin_gate : circuit.Gate :=
  {| circuit.TypeName := "fredkin";
     circuit.TargetBits := [0; 1]; circuit.ControlBits := [2] |}.

Definition toffoli_gate : circuit.Gate :=
  {| circuit.TypeName := "toffoli";
     circuit.TargetBits := [2]; circuit.ControlBits := [0; 1] |}.

Definition sample_config : AlgConfig :=
  {| NumOfAnts := 20; NumOfIterations := 30;
     Alpha := 2%float; Beta := 1%float; EvaporationRate := 0.25%float;
     LocalLoops := 3; SearchDepth := 7 |}.

Definition other_config : AlgConfig :=
  {| NumOfAnts := 5; NumOfIterations := 10;
     Alpha := 1%float; Beta := 3%float; EvaporationRate := 0.5%float;
     LocalLoops := 1; SearchDepth := 4 |}.

(** The input of the end-to-end scenario: target cost 3. *)
Definition sample_input : Input :=
  {| TargetQuantumCost := 3;
     AcoConfigs := [sample_config; other_config];
     InputTT := [[0; 0]; [0; 1]; [1; 0]; [1; 1]];
     TargetVector := [0; 1; 3; 2] |}.

(** A world whose synthesizer always finds [res] and whose repository
    always answers [err]. *)
Definition constant_world (res : aco.SynthesisResult) (err : option string)
    : World :=
  {| aco_Synthesise := fun _ _ _ _ => res;
     repo_SaveSolution := fun _ _ => err |}.

Definition result_A : aco.SynthesisResult :=
  {| aco.Complexity := 0; aco.Gates := [cnot_gate] |}.
Definition result_B : aco.SynthesisResult :=
  {| aco.Complexity := 0; aco.Gates := [fredkin_gate] |}.
Definition result_C : aco.SynthesisResult :=
  {| aco.Complexity := 2; aco.Gates := [cnot_gate; cnot_gate] |}.

(* ================================================================== *)
(** * The DynamoDB repository *)

Module awstypes.

(** The two attribute values the program writes: a string and a number,
    both carried as text. *)
Inductive AttributeValue :=
| AttributeValueMemberS (Value : string)
| AttributeValueMemberN (Value : string).

End awstypes.

Module dynamodb.

(** [dynamodb.PutItemInput], with the fields the program sets.  The item
    is the map literal, an entry for each key in the order written. *)
Record PutItemInput := {
  TableName : string;
  Item : list (string * awstypes.AttributeValue)
}.

End dynamodb.

Definition dynamoDBTableName : string := "revsynth-research-results".
Definition dynamoDBPartitionKey : string := "id".
Definition dynamoDBSortKey : string := "truthVector".
Definition dynamoDBQCKey : string := "quantumCost".
Definition dynamoDBGatesKey : string := "gates".

(** The value stored in a map under a key. *)
Fixpoint attribute (item : list (string * awstypes.AttributeValue))
    (key : string) : option awstypes.AttributeValue :=
  match item with
  | [] => None
  | (k, v) :: rest => if (k =? key)%string then Some v else attribute rest key
  end.

(** The input [SaveSolution] builds for [PutItem], [id] being what
    [uuid.NewString] returned; [None] when rendering the gates panics. *)
Definition SaveSolution_input (id : string) (s : Solution)
    : option dynamodb.PutItemInput :=
  let vectorS := vectorToStr (SolTargetVector s) in
  match gatesToStr (SolGates s) with
  | Some gatesS =>
      Some {| dynamodb.TableName := dynamoDBTableName;
              dynamodb.Item :=
                [(dynamoDBPartitionKey, awstypes.AttributeValueMemberS id);
                 (dynamoDBSortKey, awstypes.AttributeValueMemberS vectorS);
                 (dynamoDBQCKey,
                  awstypes.AttributeValueMemberN
                    (strconv.Itoa (QuantumCost s)));
                 (dynamoDBGatesKey,
                  awstypes.AttributeValueMemberS gatesS)] |}
  | None => None
  end.

(* ================================================================== *)
(** * Reading renderings back *)

(** The characters [strconv.Itoa] writes. *)
Definition numeral_char (c : Ascii.ascii) : bool :=
  (c =? "-")%char
  || ((48 <=? Ascii.nat_of_ascii c)%nat && (Ascii.nat_of_ascii c <=? 57)%nat).

Fixpoint all_chars (P : Ascii.ascii -> bool) (s : string) : bool :=
  match s with
  | EmptyString => true
  | String c rest => P c && all_chars P rest
  end.

(** A string that is empty or begins with a character outside [P]. *)
Definition starts_outside (P : Ascii.ascii -> bool) (s : string) : Prop :=
  match s with
  | EmptyString => True
  | String c _ => P c = false
  end.

(** What follows the first element in the rendering of a vector. *)
Fixpoint vector_rest (v : list Z) : string :=
  match v with
  | [] => "]"
  | x :: xs => (", " ++ strconv.Itoa x ++ vector_rest xs)%string
  end.

(** What follows the first gate in the rendering of a gate sequence. *)
Fixpoint gates_rest (gs : list circuit.Gate) : string :=
  match gs with
  | [] => ""
  | g :: rest => (", " ++ gateS g ++ gates_rest rest)%string
  end.

(* ================================================================== *)
(** * Further vocabulary *)

(** The two fatal lines of the campaign. *)
Definition campaign_fatal_line (line : string) : Prop :=
  (exists g, ~ recognized g
             /\ line = ("unknown gate type: " ++ circuit.TypeName g)%string)
  \/ (exists e, line = ("Failed to save: " ++ e)%string).

(** A run is either going on, with no fatal line so far, or it has exited
    with a fatal line as its last event and none before. *)
Definition exit_shape (r : Run unit) : Prop :=
  (result r = Some tt /\ fatal_free (emitted r))
  \/ (result r = None
      /\ exists pre line,
           emitted r = pre ++ [EvFatal line]
           /\ fatal_free pre
           /\ campaign_fatal_line line).

(** A world in which no hand-over fails. *)
Definition repository_reliable (w : World) : Prop :=
  forall h s, repo_SaveSolution w h s = None.

(** A world whose synthesizer, when it reports a complexity that passes
    the filter, returns gates of the two known types only. *)
Definition synthesizer_in_vocabulary (w : World) : Prop :=
  forall h conf factories target,
    aco.Complexity (aco_Synthesise w h conf factories target) <= 0 ->
    Forall recognized (aco.Gates (aco_Synthesise w h conf factories target)).

(** A world whose synthesizer never finds an exact realization. *)
Definition synthesizer_never_exact (w : World) : Prop :=
  forall h conf factories target,
    aco.Complexity (aco_Synthesise w h conf factories target) > 0.

(** A gate type of the cost table. *)
Definition known_type (g : circuit.Gate) : bool :=
  ((circuit.TypeName g =? "fredkin") || (circuit.TypeName g =? "cnot"))%string.

(** The fatal conditions of the campaign, as the collaborators' answers
    show them: a hand-over answered with an error, and a synthesis result
    that passes the complexity test with a gate whose type is not in the
    cost table. *)
Definition fatal_condition (e : Event) : bool :=
  match e with
  | EvSaveSolution _ (Some _) => true
  | EvSynthesise _ _ _ res =>
      (aco.Complexity res <=? 0) && negb (forallb known_type (aco.Gates res))
  | _ => false
  end.

(** No fatal condition has occurred. *)
Definition no_fatal_condition (evs : list Event) : Prop :=
  forallb (fun e => negb (fatal_condition e)) evs = true.



(** An input without configurations. *)
Definition empty_input : Input :=
  {| TargetQuantumCost := 3;
     AcoConfigs := [];
     InputTT := [[0]; [1]];
     TargetVector := [1; 0] |}.

(* ================================================================== *)
(** * Properties of the rendering functions *)

Section Rendering.

Lemma string_app_assoc (a b c : string) :
  ((a ++ b) ++ c = a ++ (b ++ c))%string.
Proof.
  induction a as [|ch a IH]; simpl; [reflexivity|].
  now rewrite IH.
Qed.

(** Appending one rendering per element is mapping the rendering. *)
Lemma fold_left_snoc {A B} (f : A -> B) (l : list A) (acc : list B) :
  fold_left (fun acc x => acc ++ [f x]) l acc = acc ++ map f l.
Proof.
  revert acc; induction l as [|x l IH]; intros acc; simpl.
  - now rewrite app_nil_r.
  - rewrite IH, <- app_assoc. reflexivity.
Qed.

(** What the string builder of [Join] holds can be split off. *)
Lemma Join_builder (sep : string) (rest : list string) (pre e : string) :
  fold_left (fun b s => b ++ sep ++ s)%string rest (pre ++ e)%string
  = (pre ++ fold_left (fun b s => b ++ sep ++ s)%string rest e)%string.
Proof.
  revert e; induction rest as [|x rest IH]; intros e; simpl.
  - reflexivity.
  - rewrite string_app_assoc. apply IH.
Qed.

(** [strings.Join] is the concatenation with separators. *)
Lemma Join_concat (elems : list string) (sep : string) :
  strings.Join elems sep = String.concat sep elems.
Proof.
  destruct elems as [|e rest]; [reflexivity|].
  revert e; induction rest as [|x rest IH]; intros e; [reflexivity|].
  change (strings.Join (e :: x :: rest) sep)
    with (fold_left (fun b s => b ++ sep ++ s)%string rest
            (e ++ sep ++ x)%string).
  rewrite <- string_app_assoc, Join_builder, string_app_assoc.
  change (String.concat sep (e :: x :: rest))
    with (e ++ sep ++ String.concat sep (x :: rest))%string.
  rewrite <- IH.
  destruct rest; reflexivity.
Qed.

(** [Itoa] writes a numeral that reads back as the integer. *)
Lemma Itoa_reads_back (i : Z) :
  option_map Z.of_int (NilZero.int_of_string (strconv.Itoa i)) = Some i.
Proof.
  unfold strconv.Itoa.
  rewrite NilZero.isi.
  - simpl. now rewrite DecimalZ.of_to.
  - destruct i; simpl; try discriminate.
    intros H; injection H as H.
  now apply DecimalPos.Unsigned.to_uint_nonnil in H.
  - destruct i; simpl; try discriminate.
    intros H; injection H as H.
  now apply DecimalPos.Unsigned.to_uint_nonnil in H.
Qed.

Lemma firstn_snoc {A} (l : list A) (i : nat) (x : A) :
  nth_error l i = Some x -> firstn (S i) l = firstn i l ++ [x].
Proof.
  revert i; induction l as [|a l IH]; intros [|i] H; simpl in *;
    try discriminate.
  - now injection H as ->.
  - f_equal. now apply IH.
Qed.

(** The loop of [gatesToStr] never indexes outside the slice, and it
    collects the renderings from index [n - 1] down to 0. *)
Lemma gatesToStr_loop_spec (gates : list circuit.Gate) (n : nat)
    (gatesSS : list string) :
  (n <= List.length gates)%nat ->
  gatesToStr_loop gates n gatesSS
  = Some (gatesSS ++ map gateS (rev (firstn n gates))).
Proof.
  revert gatesSS; induction n as [|i IH]; intros gatesSS Hn;
    cbn [gatesToStr_loop].
  - simpl. now rewrite app_nil_r.
  - destruct (nth_error gates i) as [g|] eqn:Hg.
    + rewrite IH by lia.
      rewrite (firstn_snoc gates i g Hg), rev_app_distr. simpl.
      now rewrite <- app_assoc.
    + apply nth_error_None in Hg. lia.
Qed.

End Rendering.

(** C5. The rendering of a vector is "[", the decimal renderings of its
    elements in order joined by ", ", and "]"; each element's rendering
    reads back as the element; [1,0,1] renders as "[1, 0, 1]" and the
    empty vector as "[]". *)
Theorem vectorToStr_spec :
  (forall v : list Z,
      vectorToStr v
      = ("[" ++ String.concat ", " (map strconv.Itoa v) ++ "]")%string)
  /\ (forall i : Z,
         option_map Z.of_int (NilZero.int_of_string (strconv.Itoa i))
         = Some i)
  /\ vectorToStr [1; 0; 1] = "[1, 0, 1]"
  /\ vectorToStr [] = "[]".
Proof.
  split; [|split; [exact Itoa_reads_back | split; reflexivity]].
  intros v. unfold vectorToStr.
  now rewrite fold_left_snoc, Join_concat.
Qed.

(** C4. The rendering of a gate sequence lists the gates in reverse of the
    order returned, each as its type name followed by the parenthesized
    pair of the renderings of its target bits and of its control bits,
    joined by ", "; for [g0, g1, g2] it lists g2, g1, g0. *)
Theorem gatesToStr_spec :
  (forall gates : list circuit.Gate,
      gatesToStr gates
      = Some (String.concat ", " (map gateS (rev gates))))
  /\ (forall g : circuit.Gate,
         gateS g
         = (circuit.TypeName g ++ "(" ++ vectorToStr (circuit.TargetBits g)
              ++ ", " ++ vectorToStr (circuit.ControlBits g) ++ ")")%string)
  /\ (forall g0 g1 g2 : circuit.Gate,
         gatesToStr [g0; g1; g2]
         = Some (gateS g2 ++ ", " ++ gateS g1 ++ ", " ++ gateS g0)%string).
Proof.
  assert (H : forall gates, gatesToStr gates
                = Some (String.concat ", " (map gateS (rev gates)))).
  { intros gates. unfold gatesToStr.
    rewrite gatesToStr_loop_spec by lia.
    now rewrite firstn_all, Join_concat. }
  split; [exact H | split; [reflexivity|]].
  intros g0 g1 g2. rewrite H. reflexivity.
Qed.

(** C10. The rendering of the empty gate sequence is the empty string, not
    "[]" as for the empty vector. *)
Theorem gatesToStr_nil :
  gatesToStr [] = Some "" /\ gatesToStr [] <> Some (vectorToStr []).
Proof.
  split; [reflexivity | discriminate].
Qed.

(* ================================================================== *)
(** * Properties of the cost evaluator *)

Section Cost.

Lemma wrap_small (z : Z) : min_int <= z <= max_int -> wrap z = z.
Proof.
  unfold wrap, min_int, max_int, int_bits. intros H.
  rewrite Z.mod_small; lia.
Qed.

(** Wrapping the running sum at every step is wrapping once at the end. *)
Lemma wrap_add_l (a b : Z) : wrap (wrap a + b) = wrap (a + b).
Proof.
  unfold wrap. f_equal.
  replace ((a + 2 ^ (int_bits - 1)) mod 2 ^ int_bits - 2 ^ (int_bits - 1)
           + b + 2 ^ (int_bits - 1))
    with ((a + 2 ^ (int_bits - 1)) mod 2 ^ int_bits + b) by lia.
  rewrite Zplus_mod_idemp_l. f_equal. lia.
Qed.

Lemma count_type_cons (name : string) (g : circuit.Gate)
    (gates : list circuit.Gate) :
  count_type name (g :: gates)
  = (if (circuit.TypeName g =? name)%string then 1 else 0)
    + count_type name gates.
Proof.
  unfold count_type. simpl.
  destruct (circuit.TypeName g =? name)%string; simpl List.length; lia.
Qed.

Lemma weighted_bounds (gates : list circuit.Gate) :
  0 <= weighted gates <= 5 * Z.of_nat (List.length gates).
Proof.
  unfold weighted.
  induction gates as [|g gates IH]; [simpl; lia|].
  rewrite !count_type_cons. simpl List.length.
  destruct (String.eqb_spec (circuit.TypeName g) "cnot") as [E|E].
  - rewrite E. simpl (("cnot" =? "fredkin")%string). lia.
  - destruct (circuit.TypeName g =? "fredkin")%string; lia.
Qed.

(** On recognized gates the loop adds the weighted count, modulo the
    width of an [int]. *)
Lemma calcQuantumCost_loop_recognized (gates : list circuit.Gate) (q : Z) :
  Forall recognized gates ->
  calcQuantumCost_loop gates (wrap q) = Returns (wrap (q + weighted gates)).
Proof.
  intros H. revert q. induction H as [|g gates Hg _ IH]; intros q.
  - simpl. do 2 f_equal. unfold weighted. simpl. lia.
  - unfold weighted. rewrite !count_type_cons.
    cbn [calcQuantumCost_loop].
    destruct Hg as [E|E]; rewrite E.
    + simpl (("cnot" =? "fredkin")%string). simpl (("cnot" =? "cnot")%string).
      cbv iota. rewrite wrap_add_l, IH. do 2 f_equal. unfold weighted. lia.
    + simpl (("fredkin" =? "fredkin")%string).
      simpl (("fredkin" =? "cnot")%string).
      cbv iota. rewrite wrap_add_l, IH. do 2 f_equal. unfold weighted. lia.
Qed.

(** The loop stops at the first gate whose type it does not know. *)
Lemma calcQuantumCost_loop_unknown (gates : list circuit.Gate) (qc : Z) :
  (exists g, In g gates /\ ~ recognized g) ->
  exists g, In g gates /\ ~ recognized g
            /\ calcQuantumCost_loop gates qc
               = Fatal ("unknown gate type: " ++ circuit.TypeName g)%string.
Proof.
  revert qc. induction gates as [|g gates IH]; intros qc [u [Hin Hu]].
  - destruct Hin.
  - cbn [calcQuantumCost_loop].
    destruct (String.eqb_spec (circuit.TypeName g) "fredkin") as [Ef|Ef];
      [|destruct (String.eqb_spec (circuit.TypeName g) "cnot") as [Ec|Ec]].
    + destruct Hin as [->|Hin]; [exfalso; apply Hu; now right|].
      destruct (IH (wrap (qc + 5))) as [g' [Hin' [Hu' E]]]; [now exists u|].
      exists g'. split; [now right | split; [exact Hu' | exact E]].
    + destruct Hin as [->|Hin]; [exfalso; apply Hu; now left|].
      destruct (IH (wrap (qc + 1))) as [g' [Hin' [Hu' E]]]; [now exists u|].
      exists g'. split; [now right | split; [exact Hu' | exact E]].
    + exists g. split; [now left | split; [intros [?|?]; contradiction|]].
      reflexivity.
Qed.

End Cost.

(** C2. On a sequence of recognized gates the cost evaluator returns 1
    times the number of controlled-NOT gates plus 5 times the number of
    Fredkin gates.  (A slice of gates fits in the address space, so the
    sum stays within an [int].) *)
Theorem calcQuantumCost_recognized (gates : list circuit.Gate) :
  Forall recognized gates ->
  in_memory gates ->
  calcQuantumCost gates
  = Returns (1 * count_type "cnot" gates + 5 * count_type "fredkin" gates).
Proof.
  intros Hrec Hmem. unfold calcQuantumCost.
  change 0 with (wrap 0) at 1.
  rewrite (calcQuantumCost_loop_recognized gates 0 Hrec).
  f_equal. fold (weighted gates). rewrite Z.add_0_l.
  pose proof (weighted_bounds gates) as Hb.
  unfold in_memory, gate_bytes, int_bits in Hmem.
  apply wrap_small. unfold min_int, max_int, int_bits. lia.
Qed.

(** C3. On a sequence with a gate whose type is neither controlled-NOT nor
    Fredkin the cost evaluator ends the process with the integrity error
    naming such a gate's type: it returns no cost. *)
Theorem calcQuantumCost_unknown (gates : list circuit.Gate) :
  (exists g, In g gates /\ ~ recognized g) ->
  (exists g, In g gates /\ ~ recognized g
             /\ calcQuantumCost gates
                = Fatal ("unknown gate type: " ++ circuit.TypeName g)%string)
  /\ (forall qc, calcQuantumCost gates <> Returns qc).
Proof.
  intros H.
  destruct (calcQuantumCost_loop_unknown gates 0 H) as [g [Hin [Hu E]]].
  split.
  - exists g. split; [assumption | split; assumption].
  - intros qc. unfold calcQuantumCost. rewrite E. discriminate.
Qed.

(* ================================================================== *)
(** * Properties of the campaign *)

Section Campaign.

Variable w : World.
Variable inp : Input.

(** [runConfig] takes one of its five ways. *)
Lemma runConfig_cases (c : AlgConfig) (h : list Event) :
  step_run w inp c h (runConfig w inp c h).
Proof.
  unfold runConfig, bind, Println, Synthesise.
  cbn [emitted result]. fold (synthesised w inp c h).
  set (res := synthesised w inp c h).
  assert (Hh : (h ++ [EvLog (Sprintln ["Running next config"])])
                 ++ [EvSynthesise (acoConf c) gateFactories
                       (truthVector inp) res]
               = h ++ step_head inp c res).
  { unfold step_head. now rewrite <- app_assoc. }
  rewrite Hh.
  change ([EvLog (Sprintln ["Running next config"])]
            ++ [EvSynthesise (acoConf c) gateFactories (truthVector inp) res]
            ++ ?x) with (step_head inp c res ++ x).
  destruct (aco.Complexity res >? 0) eqn:Hc.
  - apply (run_reject_complexity w inp c h res eq_refl). lia.
  - assert (Hc' : aco.Complexity res <= 0) by lia.
    unfold call.
    destruct (calcQuantumCost (aco.Gates res)) as [qc|line] eqn:Hq;
      cbn [emitted result].
    + rewrite app_nil_r.
      destruct (qc >? TargetQuantumCost inp) eqn:Ht.
      * apply (run_reject_cost w inp c h res qc eq_refl Hc' Hq). lia.
      * assert (Ht' : qc <= TargetQuantumCost inp) by lia.
        unfold SaveSolution. cbn [emitted result].
        fold (solution_of inp res qc).
        destruct (repo_SaveSolution w (h ++ step_head inp c res)
                    (solution_of inp res qc)) as [e|] eqn:Hs.
        -- exact (run_save_failed w inp c h res qc e eq_refl Hc' Hq Ht' Hs).
        -- exact (run_saved w inp c h res qc eq_refl Hc' Hq Ht' Hs).
    + exact (run_unknown_gate w inp c h res line eq_refl Hc' Hq).
Qed.

(** ** Sequencing *)

Lemma seq_running (p q : Prog unit) (h : list Event) :
  result (p h) = Some tt ->
  (p ;; q) h
  = {| emitted := emitted (p h) ++ emitted (q (h ++ emitted (p h)));
       result := result (q (h ++ emitted (p h))) |}.
Proof. intros H. unfold bind. now rewrite H. Qed.

Lemma seq_exited (p q : Prog unit) (h : list Event) :
  result (p h) = None ->
  (p ;; q) h = {| emitted := emitted (p h); result := None |}.
Proof. intros H. unfold bind. now rewrite H. Qed.

Lemma result_cases (r : Run unit) : result r = Some tt \/ result r = None.
Proof. destruct r as [evs [[]|]]; simpl; auto. Qed.

(** What holds of the empty program, of the two kinds of steps of the
    campaign and of their sequencing holds of any number of rounds. *)
Lemma campaign_ind (P : Prog unit -> Prop) :
  P (ret tt) ->
  P (Println ["Running next iteration"]) ->
  (forall c, In c (AcoConfigs inp) -> P (runConfig w inp c)) ->
  (forall p q, P p -> P q -> P (p ;; q)) ->
  forall n, P (iterations w inp n).
Proof.
  intros Hret Hlog Hstep Hseq.
  assert (Hfor : forall cs, incl cs (AcoConfigs inp) ->
                            P (forConfigs w inp cs)).
  { induction cs as [|c cs IH]; intros Hin; cbn [forConfigs].
    - exact Hret.
    - apply Hseq.
      + apply Hstep, Hin. now left.
      + apply IH. intros x Hx. apply Hin. now right. }
  induction n as [|n IH]; cbn [iterations].
  - exact Hret.
  - apply Hseq; [exact IH|].
    unfold iteration. apply Hseq; [exact Hlog|].
    apply Hfor, incl_refl.
Qed.

(** A run that has exited stays as it is however long it is observed. *)
Lemma main_exited (n m : nat) :
  result (main w inp n) = None -> (n <= m)%nat ->
  main w inp m = main w inp n.
Proof.
  intros Hn Hle. induction Hle as [|m Hle IH]; [reflexivity|].
  unfold main in *. cbn [iterations].
  rewrite seq_exited by (rewrite IH; exact Hn).
  rewrite IH. destruct (iterations w inp n []) as [evs r].
  simpl in Hn. now subst r.
Qed.

(** ** Runs without a fatal condition *)

Lemma fatal_free_app (a b : list Event) :
  fatal_free (a ++ b) <-> fatal_free a /\ fatal_free b.
Proof. unfold fatal_free. rewrite forallb_app. apply andb_true_iff. Qed.

Lemma runConfig_fatal_free (c : AlgConfig) (h : list Event) :
  fatal_free (emitted (runConfig w inp c h)) ->
  result (runConfig w inp c h) = Some tt
  /\ step_events inp c (emitted (runConfig w inp c h)).
Proof.
  destruct (runConfig_cases c h) as
    [res _ Hc | res line _ Hc Hq | res qc _ Hc Hq Ht
     | res qc _ Hc Hq Ht Hs | res qc e _ Hc Hq Ht Hs];
    cbn [emitted result]; intros Hff.
  - split; [reflexivity | now apply step_reject_complexity].
  - apply fatal_free_app in Hff. destruct Hff as [_ Hff]. discriminate Hff.
  - split; [reflexivity | now apply step_reject_cost].
  - split; [reflexivity | now apply step_accept].
  - apply fatal_free_app in Hff. destruct Hff as [_ Hff]. discriminate Hff.
Qed.

Lemma forConfigs_fatal_free (cs : list AlgConfig) (h : list Event) :
  fatal_free (emitted (forConfigs w inp cs h)) ->
  result (forConfigs w inp cs h) = Some tt
  /\ exists steps, Forall2 (step_events inp) cs steps
                   /\ emitted (forConfigs w inp cs h) = List.concat steps.
Proof.
  revert h; induction cs as [|c cs IH]; intros h; cbn [forConfigs].
  - intros _. split; [reflexivity|].
  exists []. split; [constructor | reflexivity].
  - destruct (result_cases (runConfig w inp c h)) as [Hr|Hr].
    + rewrite (seq_running _ _ _ Hr). cbn [emitted result]. intros Hff.
      apply fatal_free_app in Hff. destruct Hff as [Hc Hrest].
      destruct (runConfig_fatal_free c h Hc) as [_ Hstep].
      destruct (IH _ Hrest) as [Hres [steps [Hsteps Heq]]].
      split; [exact Hres|].
      exists (emitted (runConfig w inp c h) :: steps). split.
      * now constructor.
      * cbn [List.concat]. now rewrite Heq.
    + rewrite (seq_exited _ _ _ Hr). cbn [emitted result]. intros Hff.
      destruct (runConfig_fatal_free c h Hff) as [Hr' _]. congruence.
Qed.

Lemma iteration_fatal_free (h : list Event) :
  fatal_free (emitted (iteration w inp h)) ->
  result (iteration w inp h) = Some tt
  /\ round_events inp (emitted (iteration w inp h)).
Proof.
  unfold iteration. rewrite seq_running by reflexivity.
  cbn [emitted result Println]. intros Hff.
  apply (fatal_free_app [_]) in Hff. destruct Hff as [_ Hff].
  destruct (forConfigs_fatal_free _ _ Hff) as [Hres [steps [Hsteps Heq]]].
  split; [exact Hres|]. rewrite Heq. simpl. now constructor.
Qed.

Lemma iterations_fatal_free (n : nat) (h : list Event) :
  fatal_free (emitted (iterations w inp n h)) ->
  result (iterations w inp n h) = Some tt
  /\ campaign_events inp n (emitted (iterations w inp n h)).
Proof.
  revert h; induction n as [|n IH]; intros h; cbn [iterations].
  - intros _. split; [reflexivity | constructor].
  - destruct (result_cases (iterations w inp n h)) as [Hr|Hr].
    + rewrite (seq_running _ _ _ Hr). cbn [emitted result]. intros Hff.
      apply fatal_free_app in Hff. destruct Hff as [Hn Hlast].
      destruct (IH h Hn) as [_ Hev].
      destruct (iteration_fatal_free _ Hlast) as [Hres Hround].
      split; [exact Hres | now constructor].
    + rewrite (seq_exited _ _ _ Hr). cbn [emitted result]. intros Hff.
      destruct (IH h Hff) as [Hr' _]. congruence.
Qed.

(** ** The synthesizer calls of complete rounds *)

Lemma synth_confs_app (a b : list Event) :
  synth_confs (a ++ b) = synth_confs a ++ synth_confs b.
Proof.
  induction a as [|e a IH]; [reflexivity|].
  destruct e; simpl; now rewrite IH.
Qed.

Lemma synth_confs_steps (cs : list AlgConfig) (steps : list (list Event)) :
  Forall2 (step_events inp) cs steps ->
  synth_confs (List.concat steps) = map acoConf cs.
Proof.
  induction 1 as [|c evs cs steps Hstep _ IH]; [reflexivity|].
  simpl. rewrite synth_confs_app, IH.
  destruct Hstep; reflexivity.
Qed.

Lemma concat_repeat_comm {A} (x : list A) (n : nat) :
  List.concat (repeat x n) ++ x = x ++ List.concat (repeat x n).
Proof.
  induction n as [|n IH]; simpl.
  - now rewrite app_nil_r.
  - now rewrite <- app_assoc, IH.
Qed.

Lemma synth_confs_campaign (n : nat) (evs : list Event) :
  campaign_events inp n evs ->
  synth_confs evs
  = List.concat (repeat (map acoConf (AcoConfigs inp)) n).
Proof.
  induction 1 as [|n evs r _ IH Hr]; [reflexivity|].
  rewrite synth_confs_app, IH. destruct Hr as [steps Hsteps].
  cbn [synth_confs]. rewrite (synth_confs_steps _ _ Hsteps).
  simpl. apply concat_repeat_comm.
Qed.

(** ** Where an event of a sequence comes from *)

Lemma seq_In (p q : Prog unit) (h : list Event) (e : Event) :
  In e (emitted ((p ;; q) h)) ->
  (In e (emitted (p h))
   /\ exists tail, emitted ((p ;; q) h) = emitted (p h) ++ tail)
  \/ (In e (emitted (q (h ++ emitted (p h))))
      /\ emitted ((p ;; q) h)
         = emitted (p h) ++ emitted (q (h ++ emitted (p h)))).
Proof.
  destruct (result_cases (p h)) as [Hr|Hr].
  - rewrite (seq_running _ _ _ Hr). cbn [emitted]. intros Hin.
    apply in_app_or in Hin. destruct Hin as [Hin|Hin].
    + left. split; [exact Hin | eexists; reflexivity].
    + right. split; [exact Hin | reflexivity].
  - rewrite (seq_exited _ _ _ Hr). cbn [emitted]. intros Hin.
    left. split; [exact Hin | exists []; now rewrite app_nil_r].
Qed.

(** ** Failed hand-overs *)

Lemma no_failed_save_app (a b : list Event) :
  no_failed_save a -> no_failed_save b -> no_failed_save (a ++ b).
Proof.
  intros Ha Hb s e Hin. apply in_app_or in Hin.
  destruct Hin as [Hin|Hin]; [exact (Ha s e Hin) | exact (Hb s e Hin)].
Qed.

Lemma no_failed_save_head (c : AlgConfig) (res : aco.SynthesisResult)
    (e : Event) :
  (forall s err, e <> EvSaveSolution s (Some err)) ->
  no_failed_save (step_head inp c res ++ [e]).
Proof.
  intros He s err [H|[H|[H|[]]]]; try discriminate H.
  exact (He s err H).
Qed.

Lemma iterations_failed_save (n : nat) (h : list Event) :
  no_failed_save (emitted (iterations w inp n h))
  \/ exists s e, ends_with_failed_save (iterations w inp n h) s e.
Proof.
  revert h.
  apply (campaign_ind (fun p => forall h,
           no_failed_save (emitted (p h))
           \/ exists s e, ends_with_failed_save (p h) s e)).
  - intros h. left. intros s e [].
  - intros h. left. intros s e [H|[]]. discriminate H.
  - intros c _ h.
    destruct (runConfig_cases c h) as
      [res _ Hc | res line _ Hc Hq | res qc _ Hc Hq Ht
       | res qc _ Hc Hq Ht Hs | res qc e _ Hc Hq Ht Hs];
      cbn [emitted];
      try (left; apply no_failed_save_head; intros; discriminate).
    right. exists (solution_of inp res qc), e. split; [reflexivity|].
    exists (step_head inp c res). split; [reflexivity|].
    intros s err [H|[H|[]]]; discriminate H.
  - intros p q Hp Hq h.
    destruct (result_cases (p h)) as [Hr|Hr].
    + rewrite (seq_running _ _ _ Hr).
      destruct (Hp h) as [Hnp | [s [e [Hres _]]]]; [|congruence].
      destruct (Hq (h ++ emitted (p h)))
      as [Hnq | [s [e [Hres [pre [Heq Hpre]]]]]].
      * left. cbn [emitted]. now apply no_failed_save_app.
      * right. exists s, e. split; [exact Hres|].
        exists (emitted (p h) ++ pre). cbn [emitted]. split.
        -- rewrite Heq. now rewrite app_assoc.
        -- now apply no_failed_save_app.
    + rewrite (seq_exited _ _ _ Hr).
      destruct (Hp h) as [Hnp | [s [e [Hres [pre [Heq Hpre]]]]]].
      * left. exact Hnp.
      * right. exists s, e. split; [reflexivity|].
        exists pre. split; [exact Heq | exact Hpre].
Qed.

(** ** The calls the campaign makes *)





(** ** Fatal conditions *)

Lemma known_type_recognized (gates : list circuit.Gate) :
  forallb known_type gates = true <-> Forall recognized gates.
Proof.
  rewrite forallb_forall, Forall_forall.
  split; intros H g Hg; specialize (H g Hg); unfold known_type, recognized in *.
  - apply orb_true_iff in H. destruct H as [H|H];
      apply String.eqb_eq in H; auto.
  - apply orb_true_iff. destruct H as [H|H]; rewrite H; auto.
Qed.

Lemma no_fatal_condition_app (a b : list Event) :
  no_fatal_condition (a ++ b)
  <-> no_fatal_condition a /\ no_fatal_condition b.
Proof.
  unfold no_fatal_condition. rewrite forallb_app. apply andb_true_iff.
Qed.

(** While no fatal condition occurs the campaign does not exit. *)
Lemma iterations_no_fatal_condition (n : nat) (h : list Event) :
  no_fatal_condition (emitted (iterations w inp n h)) ->
  result (iterations w inp n h) = Some tt.
Proof.
  revert h.
  apply (campaign_ind (fun p => forall h,
           no_fatal_condition (emitted (p h)) -> result (p h) = Some tt)).
  - reflexivity.
  - reflexivity.
  - intros c _ h.
    destruct (runConfig_cases c h) as
      [res _ Hc | res line _ Hc Hq | res qc _ Hc Hq Ht
       | res qc _ Hc Hq Ht Hs | res qc e _ Hc Hq Ht Hs];
      try reflexivity; cbn [emitted]; intros Hn; exfalso.
    + unfold no_fatal_condition, step_head in Hn.
      cbn [app forallb fatal_condition] in Hn.
      apply Z.leb_le in Hc. rewrite Hc in Hn. cbn [andb] in Hn.
      destruct (forallb known_type (aco.Gates res)) eqn:Hk;
        [|discriminate Hn].
      apply known_type_recognized in Hk.
      unfold calcQuantumCost in Hq. change 0 with (wrap 0) in Hq.
      rewrite (calcQuantumCost_loop_recognized _ 0 Hk) in Hq.
      discriminate Hq.
    + apply no_fatal_condition_app in Hn. destruct Hn as [_ Hn].
      discriminate Hn.
  - intros p q Hp Hq h.
    destruct (result_cases (p h)) as [Hr|Hr].
    + rewrite (seq_running _ _ _ Hr). cbn [emitted result]. intros Hn.
      apply no_fatal_condition_app in Hn. destruct Hn as [_ Hn].
      now apply Hq.
    + rewrite (seq_exited _ _ _ Hr). cbn [emitted result]. intros Hn.
      rewrite (Hp h Hn) in Hr. discriminate Hr.
Qed.

(** A run that has not exited has written no fatal line. *)
Lemma iterations_fatal_or_running (n : nat) (h : list Event) :
  (result (iterations w inp n h) = Some tt
   /\ fatal_free (emitted (iterations w inp n h)))
  \/ result (iterations w inp n h) = None.
Proof.
  revert h.
  apply (campaign_ind (fun p => forall h,
           (result (p h) = Some tt /\ fatal_free (emitted (p h)))
           \/ result (p h) = None)).
  - intros h. left. split; reflexivity.
  - intros h. left. split; reflexivity.
  - intros c _ h.
    destruct (runConfig_cases c h) as
      [res _ Hc | res line _ Hc Hq | res qc _ Hc Hq Ht
       | res qc _ Hc Hq Ht Hs | res qc e _ Hc Hq Ht Hs];
      try (left; split; reflexivity); right; reflexivity.
  - intros p q Hp Hq h.
    destruct (Hp h) as [[Hr Hfp] | Hr].
    + rewrite (seq_running _ _ _ Hr). cbn [emitted result].
      destruct (Hq (h ++ emitted (p h))) as [[Hrq Hfq] | Hrq].
      * left. split; [exact Hrq|]. apply fatal_free_app. now split.
      * right. exact Hrq.
    + rewrite (seq_exited _ _ _ Hr). right. reflexivity.
Qed.

Lemma iterations_hands_over (n : nat) (h : list Event) (s : Solution)
    (err : option string) :
  In (EvSaveSolution s err) (emitted (iterations w inp n h)) ->
  exists c res pre post,
    In c (AcoConfigs inp)
    /\ emitted (iterations w inp n h)
       = pre ++ [EvSynthesise (acoConf c) gateFactories (truthVector inp)
                   res;
                 EvSaveSolution s err] ++ post
    /\ aco.Complexity res <= 0
    /\ calcQuantumCost (aco.Gates res) = Returns (QuantumCost s)
    /\ QuantumCost s <= TargetQuantumCost inp
    /\ s = solution_of inp res (QuantumCost s).
Proof.
  revert h.
  apply (campaign_ind (fun p => forall h,
    In (EvSaveSolution s err) (emitted (p h)) ->
    exists c res pre post,
      In c (AcoConfigs inp)
      /\ emitted (p h)
         = pre ++ [EvSynthesise (acoConf c) gateFactories (truthVector inp)
                     res;
                   EvSaveSolution s err] ++ post
      /\ aco.Complexity res <= 0
      /\ calcQuantumCost (aco.Gates res) = Returns (QuantumCost s)
      /\ QuantumCost s <= TargetQuantumCost inp
      /\ s = solution_of inp res (QuantumCost s))).
  - intros h [].
  - intros h [H|[]]. discriminate H.
  - intros c Hin h.
    destruct (runConfig_cases c h) as
      [r _ Hc | r line _ Hc Hq | r qc _ Hc Hq Ht
       | r qc _ Hc Hq Ht Hs | r qc e _ Hc Hq Ht Hs];
      cbn [emitted]; intros [H|[H|[H|Hrest]]]; try discriminate H;
      try (destruct Hrest as [H|[]]; discriminate H);
      try (destruct Hrest; fail).
    + injection H as <- <-.
      exists c, r, [EvLog (Sprintln ["Running next config"])], [].
      split; [exact Hin|]. split; [reflexivity|].
      split; [exact Hc|]. split; [exact Hq|].
      split; [exact Ht | reflexivity].
    + injection H as <- <-.
      exists c, r, [EvLog (Sprintln ["Running next config"])],
        [EvFatal (Sprintln ["Failed to save:"; e])].
      split; [exact Hin|]. split; [reflexivity|].
      split; [exact Hc|]. split; [exact Hq|].
      split; [exact Ht | reflexivity].
  - intros p q Hp Hq h Hin.
    destruct (seq_In p q h _ Hin) as [[Hin' [tail Heq]] | [Hin' Heq]].
    + destruct (Hp h Hin') as [c [res [pre [post [Hc [Hev Hrest]]]]]].
      exists c, res, pre, (post ++ tail).
      split; [exact Hc|]. split; [|exact Hrest].
      rewrite Heq, Hev. now rewrite <- !app_assoc.
    + destruct (Hq _ Hin') as [c [res [pre [post [Hc [Hev Hrest]]]]]].
      exists c, res, (emitted (p h) ++ pre), post.
      split; [exact Hc|]. split; [|exact Hrest].
      rewrite Heq, Hev. now rewrite <- !app_assoc.
Qed.

End Campaign.

(** C7. Absent a fatal condition (no hand-over answered with an error, no
    accepted-complexity result with a gate outside the cost table) the
    controller does not halt: however many rounds are observed, it is
    still running after them and starts the next one; the rounds follow
    each other, each made of the complete evaluate-and-filter steps of
    the configurations in load order, so the synthesizer is called for
    the configurations in load order, round after round, each call after
    the previous configuration's step. *)
Theorem campaign_runs_on (w : World) (inp : Input) (n : nat) :
  no_fatal_condition (emitted (main w inp n)) ->
  result (main w inp n) = Some tt
  /\ campaign_events inp n (emitted (main w inp n))
  /\ synth_confs (emitted (main w inp n))
     = List.concat (repeat (map acoConf (AcoConfigs inp)) n)
  /\ exists next,
       emitted (main w inp (S n))
       = emitted (main w inp n)
           ++ EvLog (Sprintln ["Running next iteration"]) :: next.
Proof.
  intros Hn.
  pose proof (iterations_no_fatal_condition w inp n [] Hn) as Hres.
  assert (Hff : fatal_free (emitted (main w inp n))).
  { destruct (iterations_fatal_or_running w inp n []) as [[_ H] | H];
      [exact H | unfold main in Hres; congruence]. }
  destruct (iterations_fatal_free w inp n [] Hff) as [_ Hev].
  split; [exact Hres | split; [exact Hev | split]].
  - now apply synth_confs_campaign.
  - unfold main in *. cbn [iterations].
    rewrite (seq_running _ _ _ Hres). cbn [emitted].
    unfold iteration. rewrite seq_running by reflexivity.
    cbn [emitted Println]. eexists. reflexivity.
Qed.

(** What the step of a configuration does with the synthesis result,
    by the tests it makes: [complexity > 0], then [cost > target]. *)
Lemma runConfig_filter (w : World) (inp : Input) (c : AlgConfig)
    (h : list Event) :
  (handed (emitted (runConfig w inp c h)) <> []
   <-> (aco.Complexity (synthesised w inp c h) <= 0
        /\ exists qc,
             calcQuantumCost (aco.Gates (synthesised w inp c h)) = Returns qc
             /\ qc <= TargetQuantumCost inp))
  /\ (0 <= aco.Complexity (synthesised w inp c h) ->
      accepts_iff_exact w inp c h)
  /\ (forall qc,
         aco.Complexity (synthesised w inp c h) <= 0 ->
         calcQuantumCost (aco.Gates (synthesised w inp c h)) = Returns qc ->
         qc <= TargetQuantumCost inp ->
         handed (emitted (runConfig w inp c h))
         = [{| QuantumCost := qc;
               SolTargetVector := TargetVector inp;
               SolGates := aco.Gates (synthesised w inp c h) |}])
  /\ (aco.Complexity (synthesised w inp c h) > 0 ->
      runConfig w inp c h
      = {| emitted :=
             [EvLog (Sprintln ["Running next config"]);
              EvSynthesise (acoConf c) gateFactories (truthVector inp)
                (synthesised w inp c h);
              EvLog (Sprintln
                       ["Skipping as complexity is";
                        strconv.Itoa
                          (aco.Complexity (synthesised w inp c h))])];
           result := Some tt |})
  /\ (forall qc,
         aco.Complexity (synthesised w inp c h) <= 0 ->
         calcQuantumCost (aco.Gates (synthesised w inp c h)) = Returns qc ->
         qc > TargetQuantumCost inp ->
         handed (emitted (runConfig w inp c h)) = []
         /\ result (runConfig w inp c h) = Some tt).
Proof.
  assert (Hiff :
    handed (emitted (runConfig w inp c h)) <> []
    <-> (aco.Complexity (synthesised w inp c h) <= 0
         /\ exists qc,
              calcQuantumCost (aco.Gates (synthesised w inp c h)) = Returns qc
              /\ qc <= TargetQuantumCost inp)).
  { destruct (runConfig_cases w inp c h) as
      [res -> Hc | res line -> Hc Hq | res qc -> Hc Hq Ht
       | res qc -> Hc Hq Ht Hs | res qc e -> Hc Hq Ht Hs];
      cbn [emitted step_head app handed]; split;
      try (intros H; now contradiction H);
      try (intros _; discriminate);
      try (intros _; split; [exact Hc | exists qc; now split]).
    - intros [Hc' _]. lia.
    - intros [_ [qc [Hq' _]]]. congruence.
    - intros [_ [qc' [Hq' Ht']]]. rewrite Hq in Hq'. injection Hq' as <-. lia. }
  split; [exact Hiff | split; [|split; [|split]]].
  - intros Hnn. unfold accepts_iff_exact. rewrite Hiff.
    split; intros [Hc Hq]; (split; [lia | exact Hq]).
  - intros qc Hc Hq Ht.
    destruct (runConfig_cases w inp c h) as
      [res -> Hc' | res line -> Hc' Hq' | res qc' -> Hc' Hq' Ht'
       | res qc' -> Hc' Hq' Ht' Hs | res qc' e -> Hc' Hq' Ht' Hs];
      cbn [emitted step_head app handed];
      try lia; try congruence;
      rewrite Hq in Hq'; injection Hq' as <-; try lia; reflexivity.
  - intros Hc.
    destruct (runConfig_cases w inp c h) as
      [res -> Hc' | res line -> Hc' Hq' | res qc' -> Hc' Hq' Ht'
       | res qc' -> Hc' Hq' Ht' Hs | res qc' e -> Hc' Hq' Ht' Hs];
      try lia.
    reflexivity.
  - intros qc Hc Hq Ht.
    destruct (runConfig_cases w inp c h) as
      [res -> Hc' | res line -> Hc' Hq' | res qc' -> Hc' Hq' Ht'
       | res qc' -> Hc' Hq' Ht' Hs | res qc' e -> Hc' Hq' Ht' Hs];
      cbn [emitted result step_head app handed];
      try lia; try congruence; try (split; reflexivity);
      rewrite Hq in Hq'; injection Hq' as <-; lia.
Qed.

(** C1. For a synthesis result, whose complexity indicator is 0 or a
    distance greater than 0, the step of a configuration hands the result
    to the repository exactly when the indicator is 0 and the cost of the
    gate sequence is at most the target cost, and it then hands over the
    solution built from the result.  Every other combination is
    rejected, and the campaign goes on: a result whose complexity is not
    0 before its cost is looked at, whatever its gates, and a result of
    complexity 0 whose cost exceeds the target cost. *)
Theorem acceptance_filter (w : World) (inp : Input) (c : AlgConfig)
    (h : list Event) :
  0 <= aco.Complexity (synthesised w inp c h) ->
  (handed (emitted (runConfig w inp c h)) <> []
   <-> (aco.Complexity (synthesised w inp c h) = 0
        /\ exists qc,
             calcQuantumCost (aco.Gates (synthesised w inp c h)) = Returns qc
             /\ qc <= TargetQuantumCost inp))
  /\ (forall qc,
         aco.Complexity (synthesised w inp c h) = 0 ->
         calcQuantumCost (aco.Gates (synthesised w inp c h)) = Returns qc ->
         qc <= TargetQuantumCost inp ->
         handed (emitted (runConfig w inp c h))
         = [{| QuantumCost := qc;
               SolTargetVector := TargetVector inp;
               SolGates := aco.Gates (synthesised w inp c h) |}])
  /\ (aco.Complexity (synthesised w inp c h) <> 0 ->
      runConfig w inp c h
      = {| emitted :=
             [EvLog (Sprintln ["Running next config"]);
              EvSynthesise (acoConf c) gateFactories (truthVector inp)
                (synthesised w inp c h);
              EvLog (Sprintln
                       ["Skipping as complexity is";
                        strconv.Itoa
                          (aco.Complexity (synthesised w inp c h))])];
           result := Some tt |}
      /\ handed (emitted (runConfig w inp c h)) = [])
  /\ (forall qc,
         aco.Complexity (synthesised w inp c h) = 0 ->
         calcQuantumCost (aco.Gates (synthesised w inp c h)) = Returns qc ->
         qc > TargetQuantumCost inp ->
         handed (emitted (runConfig w inp c h)) = []
         /\ result (runConfig w inp c h) = Some tt).
Proof.
  intros Hrange.
  destruct (runConfig_filter w inp c h)
    as [_ [Hexact [Haccept [Hpositive Hcost]]]].
  split; [exact (Hexact Hrange)|].
  split; [intros qc Hc; apply Haccept; lia|].
  split; [|intros qc Hc; apply Hcost; lia].
  intros Hc. assert (Hpos : aco.Complexity (synthesised w inp c h) > 0) by lia.
  split; [exact (Hpositive Hpos)|].
  rewrite (Hpositive Hpos). reflexivity.
Qed.

(** C6. When the repository returns an error for a solution, the campaign
    is over at once: the run has exited, the failed call and the fatal
    line are its last events (no second attempt, no further synthesizer
    call, configuration or round), no call failed before, and observing
    more rounds shows nothing more. *)
Theorem save_error_ends_campaign (w : World) (inp : Input) (n : nat)
    (s : Solution) (e : string) :
  In (EvSaveSolution s (Some e)) (emitted (main w inp n)) ->
  ends_with_failed_save (main w inp n) s e
  /\ forall m, (n <= m)%nat -> main w inp m = main w inp n.
Proof.
  intros Hin.
  destruct (iterations_failed_save w inp n []) as [Hno | [s' [e' Hend]]].
  - destruct (Hno s e Hin).
  - assert (Hse : s' = s /\ e' = e).
    { destruct Hend as [_ [pre [Heq Hpre]]].
      unfold main in Hin. rewrite Heq in Hin.
      apply in_app_or in Hin. destruct Hin as [Hin | [H | [H | []]]].
      - destruct (Hpre s e Hin).
      - injection H as -> ->. now split.
      - discriminate H. }
    destruct Hse as [-> ->].
    split; [exact Hend|].
    intros m Hle. apply main_exited; [exact (proj1 Hend) | exact Hle].
Qed.


(** C9. Every solution handed to the repository carries the evaluated cost
    of its gate sequence, which is at most the target cost, the target
    vector of the input, and the gate sequence of the synthesis result
    returned just before, which passed the filter. *)
Theorem handed_solution_sound (w : World) (inp : Input) (n : nat)
    (s : Solution) (err : option string) :
  In (EvSaveSolution s err) (emitted (main w inp n)) ->
  calcQuantumCost (SolGates s) = Returns (QuantumCost s)
  /\ QuantumCost s <= TargetQuantumCost inp
  /\ SolTargetVector s = TargetVector inp
  /\ exists c res pre post,
       In c (AcoConfigs inp)
       /\ emitted (main w inp n)
          = pre ++ [EvSynthesise (acoConf c) gateFactories (truthVector inp)
                      res;
                    EvSaveSolution s err] ++ post
       /\ aco.Complexity res <= 0
       /\ SolGates s = aco.Gates res.
Proof.
  intros Hin.
  destruct (iterations_hands_over w inp n [] s err Hin)
    as [c [res [pre [post [Hc [Hev [Hcx [Hq [Ht Hs]]]]]]]]].
  assert (Hg : SolGates s = aco.Gates res) by (rewrite Hs; reflexivity).
  split; [now rewrite Hg|]. split; [exact Ht|].
  split; [rewrite Hs; reflexivity|].
  exists c, res, pre, post.
  split; [exact Hc|]. split; [exact Hev|]. split; [exact Hcx | exact Hg].
Qed.

(* ================================================================== *)
(** * The properties on the sample data *)

(** The end-to-end scenario with target cost 3: result A is persisted,
    result B is rejected for its cost, result C for its complexity. *)
Example end_to_end :
  handed (emitted (runConfig (constant_world result_A None)
                     sample_input sample_config []))
  = [{| QuantumCost := 1; SolTargetVector := [0; 1; 3; 2];
        SolGates := [cnot_gate] |}]
  /\ handed (emitted (runConfig (constant_world result_B None)
                        sample_input sample_config [])) = []
  /\ handed (emitted (runConfig (constant_world result_C None)
                        sample_input sample_config [])) = [].
Proof. repeat split. Qed.

Lemma calcQuantumCost_recognized_witness :
  calcQuantumCost [cnot_gate; fredkin_gate; cnot_gate] = Returns 7.
Proof.
  apply (calcQuantumCost_recognized [cnot_gate; fredkin_gate; cnot_gate]).
  - apply Forall_cons; [left; reflexivity|].
    apply Forall_cons; [right; reflexivity|].
    apply Forall_cons; [left; reflexivity|].
    apply Forall_nil.
  - unfold in_memory, gate_bytes, int_bits. simpl. lia.
Defined.

Lemma calcQuantumCost_unknown_witness :
  (exists g, In g [cnot_gate; toffoli_gate; fredkin_gate]
             /\ ~ recognized g
             /\ calcQuantumCost [cnot_gate; toffoli_gate; fredkin_gate]
                = Fatal ("unknown gate type: " ++ circuit.TypeName g)%string)
  /\ (forall qc,
         calcQuantumCost [cnot_gate; toffoli_gate; fredkin_gate]
         <> Returns qc).
Proof.
  apply (calcQuantumCost_unknown [cnot_gate; toffoli_gate; fredkin_gate]).
  exists toffoli_gate. split.
  - simpl. auto.
  - unfold recognized. simpl. intros [H|H]; discriminate H.
Defined.

Lemma save_error_ends_campaign_witness :
  ends_with_failed_save
    (main (constant_world result_A (Some "throttled")) sample_input 1)
    {| QuantumCost := 1; SolTargetVector := [0; 1; 3; 2];
       SolGates := [cnot_gate] |}
    "throttled"
  /\ forall m, (1 <= m)%nat ->
       main (constant_world result_A (Some "throttled")) sample_input m
       = main (constant_world result_A (Some "throttled")) sample_input 1.
Proof.
  apply (save_error_ends_campaign
           (constant_world result_A (Some "throttled")) sample_input 1).
  vm_compute. do 3 right. left. reflexivity.
Defined.

Lemma acceptance_filter_witness :
  handed (emitted (runConfig (constant_world result_A None)
                     sample_input sample_config []))
  = [{| QuantumCost := 1; SolTargetVector := [0; 1; 3; 2];
        SolGates := [cnot_gate] |}]
  /\ handed (emitted (runConfig (constant_world result_C None)
                        sample_input sample_config [])) = [].
Proof.
  assert (HA : 0 <= aco.Complexity
                      (synthesised (constant_world result_A None)
                         sample_input sample_config []))
    by (vm_compute; discriminate).
  assert (HC : 0 <= aco.Complexity
                      (synthesised (constant_world result_C None)
                         sample_input sample_config []))
    by (vm_compute; discriminate).
  destruct (acceptance_filter (constant_world result_A None)
              sample_input sample_config [] HA) as [_ [Haccept _]].
  destruct (acceptance_filter (constant_world result_C None)
              sample_input sample_config [] HC) as [_ [_ [Hreject _]]].
  split.
  - apply (Haccept 1); [reflexivity | reflexivity | vm_compute; discriminate].
  - apply Hreject. vm_compute. discriminate.
Defined.

Lemma campaign_runs_on_witness :
  result (main (constant_world result_B None) sample_input 2) = Some tt
  /\ synth_confs (emitted (main (constant_world result_B None)
                             sample_input 2))
     = [acoConf sample_config; acoConf other_config;
        acoConf sample_config; acoConf other_config].
Proof.
  assert (Hn : no_fatal_condition
                 (emitted (main (constant_world result_B None)
                             sample_input 2)))
    by (vm_compute; reflexivity).
  destruct (campaign_runs_on (constant_world result_B None) sample_input 2
              Hn) as [Hres [_ [Hconfs _]]].
  split; [exact Hres | exact Hconfs].
Defined.

Lemma handed_solution_sound_witness :
  calcQuantumCost [cnot_gate] = Returns 1
  /\ 1 <= TargetQuantumCost sample_input
  /\ [0; 1; 3; 2] = TargetVector sample_input.
Proof.
  assert (Hin : In (EvSaveSolution
                      {| QuantumCost := 1; SolTargetVector := [0; 1; 3; 2];
                         SolGates := [cnot_gate] |} None)
                   (emitted (main (constant_world result_A None)
                               sample_input 1)))
    by (vm_compute; do 3 right; left; reflexivity).
  destruct (handed_solution_sound (constant_world result_A None)
              sample_input 1 _ None Hin) as [Hq [Ht [Hv _]]].
  split; [exact Hq | split; [exact Ht | exact Hv]].
Defined.

(* ================================================================== *)
(** * More on the cost evaluator *)

Section CostMore.

(** A cost is returned only when every gate was found in the table. *)
Lemma calcQuantumCost_loop_returns (gates : list circuit.Gate) (q qc : Z) :
  calcQuantumCost_loop gates q = Returns qc -> Forall recognized gates.
Proof.
  revert q; induction gates as [|g gates IH]; intros q H; [constructor|].
  cbn [calcQuantumCost_loop] in H.
  destruct (String.eqb_spec (circuit.TypeName g) "fredkin") as [Ef|Ef];
    [|destruct (String.eqb_spec (circuit.TypeName g) "cnot") as [Ec|Ec]].
  - constructor; [now right | exact (IH _ H)].
  - constructor; [now left | exact (IH _ H)].
  - discriminate H.
Qed.

(** The fatal line of the loop names a gate of the sequence that is not
    in the table. *)
Lemma calcQuantumCost_loop_fatal (gates : list circuit.Gate) (q : Z)
    (line : string) :
  calcQuantumCost_loop gates q = Fatal line ->
  exists g, In g gates /\ ~ recognized g
            /\ line = ("unknown gate type: " ++ circuit.TypeName g)%string.
Proof.
  revert q; induction gates as [|g gates IH]; intros q H; [discriminate H|].
  cbn [calcQuantumCost_loop] in H.
  destruct (String.eqb_spec (circuit.TypeName g) "fredkin") as [Ef|Ef];
    [|destruct (String.eqb_spec (circuit.TypeName g) "cnot") as [Ec|Ec]].
  - destruct (IH _ H) as [u [Hin Hu]]. exists u. split; [now right | exact Hu].
  - destruct (IH _ H) as [u [Hin Hu]]. exists u. split; [now right | exact Hu].
  - exists g. split; [now left|]. split; [intros [?|?]; contradiction|].
    injection H as <-. reflexivity.
Qed.

(** The loop passes over a prefix of recognized gates. *)
Lemma calcQuantumCost_loop_app (pre rest : list circuit.Gate) (q : Z) :
  Forall recognized pre ->
  calcQuantumCost_loop (pre ++ rest) (wrap q)
  = calcQuantumCost_loop rest (wrap (q + weighted pre)).
Proof.
  intros H. revert q. induction H as [|g pre Hg _ IH]; intros q.
  - simpl. do 2 f_equal. unfold weighted. simpl. lia.
  - unfold weighted. rewrite !count_type_cons.
    cbn [app calcQuantumCost_loop].
    destruct Hg as [E|E]; rewrite E.
    + simpl (("cnot" =? "fredkin")%string). simpl (("cnot" =? "cnot")%string).
      cbv iota. rewrite wrap_add_l, IH. do 2 f_equal. unfold weighted. lia.
    + simpl (("fredkin" =? "fredkin")%string).
      simpl (("fredkin" =? "cnot")%string).
      cbv iota. rewrite wrap_add_l, IH. do 2 f_equal. unfold weighted. lia.
Qed.

Lemma count_type_app (name : string) (a b : list circuit.Gate) :
  count_type name (a ++ b) = count_type name a + count_type name b.
Proof.
  unfold count_type. rewrite filter_app, length_app. lia.
Qed.

Lemma count_type_perm (name : string) (a b : list circuit.Gate) :
  Permutation a b -> count_type name a = count_type name b.
Proof.
  induction 1 as [|x a b _ IH|x y a|a b c _ IH1 _ IH2].
  - reflexivity.
  - rewrite !count_type_cons. lia.
  - rewrite !count_type_cons. lia.
  - lia.
Qed.

(** Each recognized gate is counted once, as one type or the other. *)
Lemma count_type_recognized (gates : list circuit.Gate) :
  Forall recognized gates ->
  count_type "cnot" gates + count_type "fredkin" gates
  = Z.of_nat (List.length gates).
Proof.
  induction 1 as [|g gates Hg _ IH]; [reflexivity|].
  rewrite !count_type_cons. simpl List.length.
  destruct Hg as [E|E]; rewrite E.
  - simpl (("cnot" =? "cnot")%string). simpl (("cnot" =? "fredkin")%string).
    lia.
  - simpl (("fredkin" =? "cnot")%string).
    simpl (("fredkin" =? "fredkin")%string). lia.
Qed.

Lemma count_type_nonneg (name : string) (gates : list circuit.Gate) :
  0 <= count_type name gates.
Proof. unfold count_type. lia. Qed.

(** Without wrap-around the cost of recognized gates is their weighted
    count. *)
Lemma calcQuantumCost_weighted (gates : list circuit.Gate) :
  Forall recognized gates -> in_memory gates ->
  calcQuantumCost gates = Returns (weighted gates).
Proof.
  intros Hrec Hmem. unfold calcQuantumCost.
  change 0 with (wrap 0) at 1.
  rewrite (calcQuantumCost_loop_recognized gates 0 Hrec).
  f_equal. rewrite Z.add_0_l.
  pose proof (weighted_bounds gates) as Hb.
  unfold in_memory, gate_bytes, int_bits in Hmem.
  apply wrap_small. unfold min_int, max_int, int_bits. lia.
Qed.

Lemma in_memory_app (a b : list circuit.Gate) :
  in_memory (a ++ b) -> in_memory a /\ in_memory b.
Proof.
  unfold in_memory, gate_bytes. rewrite length_app. lia.
Qed.

(** The evaluation stops at the first gate that is not in the table. *)
Lemma cost_stops_at_unknown (pre post : list circuit.Gate)
    (g : circuit.Gate) :
  Forall recognized pre ->
  ~ recognized g ->
  calcQuantumCost (pre ++ g :: post)
  = Fatal ("unknown gate type: " ++ circuit.TypeName g)%string.
Proof.
  intros Hpre Hg. unfold calcQuantumCost.
  change 0 with (wrap 0) at 1.
  rewrite (calcQuantumCost_loop_app pre (g :: post) 0 Hpre).
  cbn [calcQuantumCost_loop].
  destruct (String.eqb_spec (circuit.TypeName g) "fredkin") as [Ef|Ef];
    [exfalso; apply Hg; now right|].
  destruct (String.eqb_spec (circuit.TypeName g) "cnot") as [Ec|Ec];
    [exfalso; apply Hg; now left|].
  reflexivity.
Qed.

(** A cost that is returned counts every gate at least once and at most
    five times. *)
Lemma returned_cost_bounds (gates : list circuit.Gate) (qc : Z) :
  in_memory gates ->
  calcQuantumCost gates = Returns qc ->
  Z.of_nat (List.length gates) <= qc <= 5 * Z.of_nat (List.length gates).
Proof.
  intros Hmem Hq.
  pose proof (calcQuantumCost_loop_returns gates 0 qc Hq) as Hrec.
  rewrite (calcQuantumCost_weighted gates Hrec Hmem) in Hq.
  injection Hq as <-.
  pose proof (count_type_recognized gates Hrec) as Hsum.
  pose proof (count_type_nonneg "cnot" gates).
  pose proof (count_type_nonneg "fredkin" gates).
  unfold weighted. lia.
Qed.

End CostMore.

(** X1. The cost evaluator returns a cost only for a sequence in which
    every gate is a controlled-NOT or a Fredkin gate. *)
Theorem calcQuantumCost_returns_recognized (gates : list circuit.Gate)
    (qc : Z) :
  calcQuantumCost gates = Returns qc -> Forall recognized gates.
Proof. apply calcQuantumCost_loop_returns. Qed.

(** X2. The integrity error names the first gate of unknown type: gates
    after it are not looked at. *)
Theorem calcQuantumCost_first_unknown (pre post : list circuit.Gate)
    (g : circuit.Gate) :
  Forall recognized pre ->
  ~ recognized g ->
  calcQuantumCost (pre ++ g :: post)
  = Fatal ("unknown gate type: " ++ circuit.TypeName g)%string.
Proof. apply cost_stops_at_unknown. Qed.

(** X3. A returned cost lies between the number of gates and five times
    the number of gates. *)
Theorem calcQuantumCost_bounds (gates : list circuit.Gate) (qc : Z) :
  in_memory gates ->
  calcQuantumCost gates = Returns qc ->
  Z.of_nat (List.length gates) <= qc <= 5 * Z.of_nat (List.length gates).
Proof. apply returned_cost_bounds. Qed.

(** X4. The cost of a sequence made of two parts is the sum of the costs
    of the parts. *)
Theorem calcQuantumCost_app (a b : list circuit.Gate) (qa qb : Z) :
  in_memory (a ++ b) ->
  calcQuantumCost a = Returns qa ->
  calcQuantumCost b = Returns qb ->
  calcQuantumCost (a ++ b) = Returns (qa + qb).
Proof.
  intros Hmem Ha Hb.
  pose proof (calcQuantumCost_loop_returns a 0 qa Ha) as Hra.
  pose proof (calcQuantumCost_loop_returns b 0 qb Hb) as Hrb.
  destruct (in_memory_app a b Hmem) as [Hma Hmb].
  rewrite (calcQuantumCost_weighted a Hra Hma) in Ha. injection Ha as <-.
  rewrite (calcQuantumCost_weighted b Hrb Hmb) in Hb. injection Hb as <-.
  rewrite calcQuantumCost_weighted;
    [|apply Forall_app; now split | exact Hmem].
  f_equal. unfold weighted. rewrite !count_type_app. lia.
Qed.

(** X5. The cost does not depend on the order of the gates: a reordered
    sequence, such as the reversed one that is rendered, has the same
    cost. *)
Theorem calcQuantumCost_permutation (gates gates' : list circuit.Gate)
    (qc : Z) :
  Permutation gates gates' ->
  calcQuantumCost gates = Returns qc ->
  calcQuantumCost gates' = Returns qc
  /\ calcQuantumCost (rev gates) = Returns qc.
Proof.
  intros Hperm Hq.
  pose proof (calcQuantumCost_loop_returns gates 0 qc Hq) as Hrec.
  assert (H : forall l, Permutation gates l ->
                        calcQuantumCost l = Returns qc).
  { intros l Hl. rewrite <- Hq. unfold calcQuantumCost.
    change 0 with (wrap 0).
    rewrite (calcQuantumCost_loop_recognized gates 0 Hrec).
    rewrite (calcQuantumCost_loop_recognized l 0
               (Permutation_Forall Hl Hrec)).
    unfold weighted.
    now rewrite (count_type_perm "cnot" _ _ Hl),
      (count_type_perm "fredkin" _ _ Hl). }
  split; [exact (H _ Hperm) | exact (H _ (Permutation_rev gates))].
Qed.

(* ================================================================== *)
(** * More on the campaign *)

Section CampaignMore.

Variable w : World.
Variable inp : Input.

Lemma handed_app (a b : list Event) :
  handed (a ++ b) = handed a ++ handed b.
Proof.
  induction a as [|e a IH]; [reflexivity|].
  destruct e; simpl; now rewrite IH.
Qed.

Lemma fatal_free_head (c : AlgConfig) (res : aco.SynthesisResult)
    (e : Event) :
  is_fatal e = false -> fatal_free (step_head inp c res ++ [e]).
Proof. intros He. unfold fatal_free. simpl. now rewrite He. Qed.

(** ** How a run ends *)

Lemma iterations_exit_shape (n : nat) (h : list Event) :
  exit_shape (iterations w inp n h).
Proof.
  revert h.
  apply (campaign_ind w inp (fun p => forall h, exit_shape (p h))).
  - intros h. left. split; reflexivity.
  - intros h. left. split; reflexivity.
  - intros c _ h.
    destruct (runConfig_cases w inp c h) as
      [res _ Hc | res line _ Hc Hq | res qc _ Hc Hq Ht
       | res qc _ Hc Hq Ht Hs | res qc e _ Hc Hq Ht Hs];
      try (left; split; [reflexivity | now apply fatal_free_head]).
    + right. split; [reflexivity|].
      exists (step_head inp c res), line.
      split; [reflexivity|]. split; [reflexivity|].
      left. destruct (calcQuantumCost_loop_fatal _ _ _ Hq) as [g [_ [Hg E]]].
      exists g. now split.
    + right. split; [reflexivity|].
      exists (step_head inp c res
                ++ [EvSaveSolution (solution_of inp res qc) (Some e)]),
        (Sprintln ["Failed to save:"; e]).
      split; [cbn [emitted]; now rewrite <- app_assoc|].
      split; [reflexivity|].
      right. exists e. reflexivity.
  - intros p q Hp Hq h.
    destruct (result_cases (p h)) as [Hr|Hr].
    + rewrite (seq_running _ _ _ Hr).
      destruct (Hp h) as [[_ Hfp] | [Hnone _]]; [|congruence].
      destruct (Hq (h ++ emitted (p h)))
        as [[Hres Hfq] | [Hres [pre [line [Heq [Hpre Hline]]]]]].
      * left. split; [exact Hres|]. cbn [emitted].
        apply fatal_free_app. now split.
      * right. split; [exact Hres|].
        exists (emitted (p h) ++ pre), line. cbn [emitted].
        split; [rewrite Heq; now rewrite app_assoc|].
        split; [apply fatal_free_app; now split | exact Hline].
    + rewrite (seq_exited _ _ _ Hr).
      destruct (Hp h) as [[Hsome _] | [_ Hex]]; [congruence|].
      right. split; [reflexivity | exact Hex].
Qed.

(** A run that goes on has met no fatal condition. *)
Lemma iterations_running_no_condition (n : nat) (h : list Event) :
  result (iterations w inp n h) = Some tt ->
  no_fatal_condition (emitted (iterations w inp n h)).
Proof.
  revert h.
  apply (campaign_ind w inp (fun p => forall h,
           result (p h) = Some tt -> no_fatal_condition (emitted (p h)))).
  - reflexivity.
  - reflexivity.
  - intros c _ h.
    destruct (runConfig_cases w inp c h) as
      [res _ Hc | res line _ Hc Hq | res qc _ Hc Hq Ht
       | res qc _ Hc Hq Ht Hs | res qc e _ Hc Hq Ht Hs];
      cbn [emitted result]; intros Hr; try discriminate Hr;
      unfold no_fatal_condition, step_head;
      cbn [app forallb fatal_condition].
    + rewrite (proj2 (Z.leb_gt _ _)) by lia. reflexivity.
    + rewrite (proj2 (known_type_recognized _)
                 (calcQuantumCost_loop_returns _ _ _ Hq)).
      now rewrite andb_false_r.
    + rewrite (proj2 (known_type_recognized _)
                 (calcQuantumCost_loop_returns _ _ _ Hq)).
      now rewrite andb_false_r.
  - intros p q Hp Hq h.
    destruct (result_cases (p h)) as [Hr|Hr].
    + rewrite (seq_running _ _ _ Hr). cbn [emitted result]. intros Hrq.
      apply no_fatal_condition_app. split; [now apply Hp | now apply Hq].
    + rewrite (seq_exited _ _ _ Hr). cbn [emitted result]. discriminate.
Qed.

(** ** Worlds in which nothing is fatal *)

Lemma iterations_no_exit (n : nat) (h : list Event) :
  repository_reliable w -> synthesizer_in_vocabulary w ->
  result (iterations w inp n h) = Some tt.
Proof.
  intros Hrepo Hsynth. revert h.
  apply (campaign_ind w inp (fun p => forall h, result (p h) = Some tt)).
  - reflexivity.
  - reflexivity.
  - intros c _ h.
    destruct (runConfig_cases w inp c h) as
      [res _ Hc | res line E Hc Hq | res qc _ Hc Hq Ht
       | res qc _ Hc Hq Ht Hs | res qc e _ Hc Hq Ht Hs];
      try reflexivity.
    + exfalso. subst res. unfold synthesised in *.
      pose proof (Hsynth _ _ _ _ Hc) as Hrec.
      unfold calcQuantumCost in Hq. change 0 with (wrap 0) in Hq.
      rewrite (calcQuantumCost_loop_recognized _ 0 Hrec) in Hq.
      discriminate Hq.
    + rewrite Hrepo in Hs. discriminate Hs.
  - intros p q Hp Hq h.
    rewrite (seq_running _ _ _ (Hp h)). apply Hq.
Qed.

Lemma length_concat_repeat {A} (l : list A) (n : nat) :
  List.length (List.concat (repeat l n)) = (n * List.length l)%nat.
Proof.
  induction n as [|n IH]; [reflexivity|].
  simpl. rewrite length_app, IH. reflexivity.
Qed.

(** ** Worlds in which nothing is found *)

Lemma iterations_never_exact (n : nat) (h : list Event) :
  synthesizer_never_exact w ->
  result (iterations w inp n h) = Some tt
  /\ handed (emitted (iterations w inp n h)) = [].
Proof.
  intros Hsynth. revert h.
  apply (campaign_ind w inp
           (fun p => forall h, result (p h) = Some tt
                               /\ handed (emitted (p h)) = [])).
  - intros h. split; reflexivity.
  - intros h. split; reflexivity.
  - intros c _ h.
    destruct (runConfig_cases w inp c h) as
      [res _ Hc | res line E Hc Hq | res qc E Hc Hq Ht
       | res qc E Hc Hq Ht Hs | res qc e E Hc Hq Ht Hs];
      [split; reflexivity | | | | ];
      exfalso; subst res; unfold synthesised in Hc;
      pose proof (Hsynth (h ++ [EvLog (Sprintln ["Running next config"])])
                    (acoConf c) gateFactories (truthVector inp)); lia.
  - intros p q Hp Hq h.
    destruct (Hp h) as [Hrp Hhp].
    rewrite (seq_running _ _ _ Hrp). cbn [emitted result].
    destruct (Hq (h ++ emitted (p h))) as [Hrq Hhq].
    split; [exact Hrq|]. now rewrite handed_app, Hhp, Hhq.
Qed.

(** ** Counting the calls *)

Lemma runConfig_calls (c : AlgConfig) (h : list Event) :
  List.length (synth_confs (emitted (runConfig w inp c h))) = 1%nat
  /\ (List.length (handed (emitted (runConfig w inp c h))) <= 1)%nat.
Proof.
  destruct (runConfig_cases w inp c h) as
    [res _ Hc | res line _ Hc Hq | res qc _ Hc Hq Ht
     | res qc _ Hc Hq Ht Hs | res qc e _ Hc Hq Ht Hs];
    cbn [emitted step_head app synth_confs handed List.length]; lia.
Qed.

Lemma forConfigs_calls (cs : list AlgConfig) (h : list Event) :
  (List.length (handed (emitted (forConfigs w inp cs h)))
   <= List.length (synth_confs (emitted (forConfigs w inp cs h)))
   <= List.length cs)%nat.
Proof.
  revert h; induction cs as [|c cs IH]; intros h; cbn [forConfigs].
  - simpl. lia.
  - pose proof (runConfig_calls c h) as [Hs Hh].
    destruct (result_cases (runConfig w inp c h)) as [Hr|Hr].
    + rewrite (seq_running _ _ _ Hr). cbn [emitted].
      rewrite handed_app, synth_confs_app, !length_app.
      specialize (IH (h ++ emitted (runConfig w inp c h))).
      change (List.length (c :: cs)) with (S (List.length cs)). lia.
    + rewrite (seq_exited _ _ _ Hr). cbn [emitted].
      change (List.length (c :: cs)) with (S (List.length cs)). lia.
Qed.

Lemma iterations_calls (n : nat) (h : list Event) :
  (List.length (handed (emitted (iterations w inp n h)))
   <= List.length (synth_confs (emitted (iterations w inp n h)))
   <= n * List.length (AcoConfigs inp))%nat.
Proof.
  revert h; induction n as [|n IH]; intros h; cbn [iterations].
  - simpl. lia.
  - specialize (IH h).
    destruct (result_cases (iterations w inp n h)) as [Hr|Hr].
    + rewrite (seq_running _ _ _ Hr). cbn [emitted].
      rewrite handed_app, synth_confs_app, !length_app.
      unfold iteration. rewrite seq_running by reflexivity.
      cbn [emitted Println app handed synth_confs].
      pose proof (forConfigs_calls (AcoConfigs inp)
                    ((h ++ emitted (iterations w inp n h))
                       ++ [EvLog (Sprintln ["Running next iteration"])])).
      change (S n * List.length (AcoConfigs inp))%nat
        with (List.length (AcoConfigs inp)
              + n * List.length (AcoConfigs inp))%nat.
      lia.
    + rewrite (seq_exited _ _ _ Hr). cbn [emitted].
      change (S n * List.length (AcoConfigs inp))%nat
        with (List.length (AcoConfigs inp)
              + n * List.length (AcoConfigs inp))%nat.
      lia.
Qed.

End CampaignMore.

(** X6. Once the input is loaded, the campaign is still running after
    the observed rounds exactly when no fatal condition has occurred in
    them: it exits when a hand-over is answered with an error or a result
    that passes the complexity test holds a gate outside the cost table,
    and for no other reason. *)
Theorem running_iff_no_fatal_condition (w : World) (inp : Input) (n : nat) :
  result (main w inp n) = Some tt
  <-> no_fatal_condition (emitted (main w inp n)).
Proof.
  split.
  - apply iterations_running_no_condition.
  - apply iterations_no_fatal_condition.
Qed.

(** X7. When the repository never fails and the synthesizer's accepted
    results use the two known gate types only, the campaign never exits:
    every round is completed, with one synthesizer call for each
    configuration. *)
Theorem reliable_world_never_exits (w : World) (inp : Input) (n : nat) :
  repository_reliable w ->
  synthesizer_in_vocabulary w ->
  result (main w inp n) = Some tt
  /\ fatal_free (emitted (main w inp n))
  /\ List.length (synth_confs (emitted (main w inp n)))
     = (n * List.length (AcoConfigs inp))%nat.
Proof.
  intros Hrepo Hsynth.
  pose proof (iterations_no_exit w inp n [] Hrepo Hsynth) as Hres.
  assert (Hff : fatal_free (emitted (main w inp n))).
  { destruct (iterations_exit_shape w inp n []) as [[_ H] | [H _]];
      [exact H | unfold main in Hres; congruence]. }
  split; [exact Hres | split; [exact Hff|]].
  destruct (iterations_fatal_free w inp n [] Hff) as [_ Hev].
  unfold main. rewrite (synth_confs_campaign inp n _ Hev).
  now rewrite length_concat_repeat, length_map.
Qed.

(** X8. When the synthesizer never finds an exact realization, every
    result is rejected and the campaign goes on: the repository is never
    called, and every configuration is tried in every round. *)
Theorem nothing_found_nothing_saved (w : World) (inp : Input) (n : nat) :
  synthesizer_never_exact w ->
  result (main w inp n) = Some tt
  /\ handed (emitted (main w inp n)) = []
  /\ List.length (synth_confs (emitted (main w inp n)))
     = (n * List.length (AcoConfigs inp))%nat.
Proof.
  intros Hsynth.
  destruct (iterations_never_exact w inp n [] Hsynth) as [Hres Hh].
  split; [exact Hres | split; [exact Hh|]].
  assert (Hff : fatal_free (emitted (main w inp n))).
  { destruct (iterations_exit_shape w inp n []) as [[_ H] | [H _]];
      [exact H | unfold main in Hres; congruence]. }
  destruct (iterations_fatal_free w inp n [] Hff) as [_ Hev].
  unfold main. rewrite (synth_confs_campaign inp n _ Hev).
  now rewrite length_concat_repeat, length_map.
Qed.

(** X9. With no configuration loaded the campaign still does not stop: it
    logs the start of one round after the other and calls neither the
    synthesizer nor the repository. *)
Theorem no_configuration_spins (w : World) (inp : Input) (n : nat) :
  AcoConfigs inp = [] ->
  main w inp n
  = {| emitted := repeat (EvLog "Running next iteration") n;
       result := Some tt |}.
Proof.
  intros Hnil. unfold main.
  induction n as [|n IH]; [reflexivity|].
  cbn [iterations]. rewrite seq_running by (rewrite IH; reflexivity).
  rewrite IH. cbn [emitted result].
  unfold iteration. rewrite Hnil. cbn [forConfigs].
  unfold bind, Println, ret. cbn [emitted result].
  f_equal. rewrite app_nil_r. symmetry. apply repeat_cons.
Qed.

(** X10. A solution handed to the repository is made of controlled-NOT and
    Fredkin gates only, and has no more gates than its cost, which is at
    most the target cost. *)
Theorem saved_gates_known (w : World) (inp : Input) (n : nat)
    (s : Solution) (err : option string) :
  In (EvSaveSolution s err) (emitted (main w inp n)) ->
  Forall recognized (SolGates s)
  /\ (in_memory (SolGates s) ->
      Z.of_nat (List.length (SolGates s)) <= QuantumCost s
      /\ QuantumCost s <= TargetQuantumCost inp).
Proof.
  intros Hin.
  destruct (iterations_hands_over w inp n [] s err Hin)
    as [c [res [pre [post [_ [_ [_ [Hq [Ht Hs]]]]]]]]].
  assert (Hg : SolGates s = aco.Gates res) by (rewrite Hs; reflexivity).
  rewrite Hg. split.
  - exact (calcQuantumCost_loop_returns _ _ _ Hq).
  - intros Hmem. split; [|exact Ht].
    apply (returned_cost_bounds _ _ Hmem Hq).
Qed.

(** X11. In any run the repository is called at most once for each call
    of the synthesizer, and the synthesizer at most once for each
    configuration in each round. *)
Theorem calls_bounded (w : World) (inp : Input) (n : nat) :
  (List.length (handed (emitted (main w inp n)))
   <= List.length (synth_confs (emitted (main w inp n)))
   <= n * List.length (AcoConfigs inp))%nat.
Proof. exact (iterations_calls w inp n []). Qed.

Lemma calcQuantumCost_returns_recognized_witness :
  Forall recognized [fredkin_gate; cnot_gate].
Proof.
  apply (calcQuantumCost_returns_recognized [fredkin_gate; cnot_gate] 6).
  reflexivity.
Defined.

Lemma calcQuantumCost_first_unknown_witness :
  calcQuantumCost ([cnot_gate] ++ toffoli_gate :: [fredkin_gate])
  = Fatal "unknown gate type: toffoli".
Proof.
  apply (calcQuantumCost_first_unknown [cnot_gate] [fredkin_gate]
           toffoli_gate).
  - apply Forall_cons; [left; reflexivity | apply Forall_nil].
  - unfold recognized. simpl. intros [H|H]; discriminate H.
Defined.

Lemma calcQuantumCost_bounds_witness :
  2 <= 6 <= 5 * 2.
Proof.
  apply (calcQuantumCost_bounds [fredkin_gate; cnot_gate] 6).
  - unfold in_memory, gate_bytes, int_bits. simpl. lia.
  - reflexivity.
Defined.

Lemma calcQuantumCost_app_witness :
  calcQuantumCost ([cnot_gate; cnot_gate] ++ [fredkin_gate]) = Returns (2 + 5).
Proof.
  apply (calcQuantumCost_app [cnot_gate; cnot_gate] [fredkin_gate] 2 5).
  - unfold in_memory, gate_bytes, int_bits. simpl. lia.
  - reflexivity.
  - reflexivity.
Defined.

Lemma calcQuantumCost_permutation_witness :
  calcQuantumCost [fredkin_gate; cnot_gate; cnot_gate] = Returns 7
  /\ calcQuantumCost (rev [cnot_gate; fredkin_gate; cnot_gate]) = Returns 7.
Proof.
  apply (calcQuantumCost_permutation [cnot_gate; fredkin_gate; cnot_gate]).
  - apply perm_swap.
  - reflexivity.
Defined.

Lemma reliable_world_never_exits_witness :
  result (main (constant_world result_A None) sample_input 3) = Some tt
  /\ fatal_free (emitted (main (constant_world result_A None)
                            sample_input 3))
  /\ List.length (synth_confs (emitted (main (constant_world result_A None)
                                          sample_input 3)))
     = (3 * 2)%nat.
Proof.
  apply (reliable_world_never_exits (constant_world result_A None)
           sample_input 3).
  - intros h s. reflexivity.
  - intros h conf factories target _. simpl.
    apply Forall_cons; [left; reflexivity | apply Forall_nil].
Defined.

Lemma nothing_found_nothing_saved_witness :
  result (main (constant_world result_C None) sample_input 2) = Some tt
  /\ handed (emitted (main (constant_world result_C None) sample_input 2))
     = []
  /\ List.length (synth_confs (emitted (main (constant_world result_C None)
                                          sample_input 2)))
     = (2 * 2)%nat.
Proof.
  apply (nothing_found_nothing_saved (constant_world result_C None)
           sample_input 2).
  intros h conf factories target. simpl. lia.
Defined.

Lemma no_configuration_spins_witness :
  main (constant_world result_A None) empty_input 2
  = {| emitted := [EvLog "Running next iteration";
                   EvLog "Running next iteration"];
       result := Some tt |}.
Proof.
  apply (no_configuration_spins (constant_world result_A None)
           empty_input 2).
  reflexivity.
Defined.

Lemma saved_gates_known_witness :
  Forall recognized [cnot_gate]
  /\ (in_memory [cnot_gate] ->
      Z.of_nat (List.length [cnot_gate]) <= 1
      /\ 1 <= TargetQuantumCost sample_input).
Proof.
  apply (saved_gates_known (constant_world result_A None) sample_input 1
           {| QuantumCost := 1; SolTargetVector := [0; 1; 3; 2];
              SolGates := [cnot_gate] |} None).
  vm_compute. do 3 right. left. reflexivity.
Defined.

(* ================================================================== *)
(** * Reading the renderings back *)

Section ReadBack.

Lemma string_app_nil_r (s : string) : (s ++ "")%string = s.
Proof. induction s as [|c s IH]; simpl; [reflexivity | now rewrite IH]. Qed.

(** A text over the characters [P] is determined by any string it
    begins, when what follows starts outside [P]. *)
Lemma delimited_prefix (P : ascii -> bool) (a b t1 t2 : string) :
  all_chars P a = true -> all_chars P b = true ->
  starts_outside P t1 -> starts_outside P t2 ->
  (a ++ t1 = b ++ t2)%string ->
  a = b /\ t1 = t2.
Proof.
  revert b; induction a as [|c a IH]; intros [|d b] Ha Hb H1 H2 E;
    simpl in *.
  - now split.
  - subst t1. simpl in H1. apply andb_true_iff in Hb. destruct Hb as [Hd _].
    congruence.
  - subst t2. simpl in H2. apply andb_true_iff in Ha. destruct Ha as [Hc _].
    congruence.
  - injection E as -> E.
    apply andb_true_iff in Ha. destruct Ha as [_ Ha].
    apply andb_true_iff in Hb. destruct Hb as [_ Hb].
    destruct (IH b Ha Hb H1 H2 E) as [-> ->]. now split.
Qed.

Lemma uint_numeral (d : Decimal.uint) :
  all_chars numeral_char (NilEmpty.string_of_uint d) = true.
Proof. induction d; simpl; try rewrite IHd; reflexivity. Qed.

Lemma Itoa_numeral (i : Z) : all_chars numeral_char (strconv.Itoa i) = true.
Proof.
  assert (H : forall d, all_chars numeral_char (NilZero.string_of_uint d)
                        = true).
  { intros d. destruct d; try reflexivity;
      match goal with
      | |- context [NilZero.string_of_uint ?x] => exact (uint_numeral x)
      end. }
  unfold strconv.Itoa. destruct i; simpl.
  - reflexivity.
  - apply H.
  - apply H.
Qed.

Lemma Itoa_inj (i j : Z) : strconv.Itoa i = strconv.Itoa j -> i = j.
Proof.
  intros E. pose proof (Itoa_reads_back i) as Hi.
  rewrite E, Itoa_reads_back in Hi. now injection Hi.
Qed.

Lemma Itoa_head (i : Z) :
  exists c rest, strconv.Itoa i = String c rest /\ numeral_char c = true.
Proof.
  pose proof (Itoa_numeral i) as Hn. pose proof (Itoa_reads_back i) as Hr.
  destruct (strconv.Itoa i) as [|c rest].
  - discriminate Hr.
  - exists c, rest. split; [reflexivity|].
    simpl in Hn. apply andb_true_iff in Hn. tauto.
Qed.

Lemma vectorToStr_concat (v : list Z) :
  vectorToStr v
  = ("[" ++ String.concat ", " (map strconv.Itoa v) ++ "]")%string.
Proof. unfold vectorToStr. now rewrite fold_left_snoc, Join_concat. Qed.

Lemma concat_vector_rest (x : Z) (xs : list Z) :
  (String.concat ", " (map strconv.Itoa (x :: xs)) ++ "]")%string
  = (strconv.Itoa x ++ vector_rest xs)%string.
Proof.
  revert x; induction xs as [|y ys IH]; intros x; [reflexivity|].
  change (String.concat ", " (map strconv.Itoa (x :: y :: ys)))
    with (strconv.Itoa x
            ++ ", " ++ String.concat ", " (map strconv.Itoa (y :: ys)))%string.
  rewrite string_app_assoc.
  change ((", " ++ String.concat ", " (map strconv.Itoa (y :: ys))) ++ "]")%string
    with (", " ++ (String.concat ", " (map strconv.Itoa (y :: ys)) ++ "]"))%string.
  now rewrite IH.
Qed.

Lemma vectorToStr_cons (x : Z) (xs : list Z) :
  vectorToStr (x :: xs)
  = ("[" ++ strconv.Itoa x ++ vector_rest xs)%string.
Proof. now rewrite vectorToStr_concat, concat_vector_rest. Qed.

Lemma vector_rest_starts (xs : list Z) (t : string) :
  starts_outside numeral_char (vector_rest xs ++ t).
Proof. destruct xs; reflexivity. Qed.

(** The end of a rendered vector is found without looking past it. *)
Lemma vector_rest_delimited (xs ys : list Z) (t1 t2 : string) :
  (vector_rest xs ++ t1 = vector_rest ys ++ t2)%string ->
  xs = ys /\ t1 = t2.
Proof.
  revert ys; induction xs as [|x xs IH]; intros [|y ys] E;
    cbn [vector_rest String.append] in E; try discriminate E.
  - injection E as E. now split.
  - injection E as E. rewrite !string_app_assoc in E.
    destruct (delimited_prefix numeral_char _ _ _ _
                (Itoa_numeral x) (Itoa_numeral y)
                (vector_rest_starts xs t1) (vector_rest_starts ys t2) E)
      as [Ex Er].
    apply Itoa_inj in Ex. subst y.
    destruct (IH ys Er) as [-> ->]. now split.
Qed.

Lemma vectorToStr_delimited (v v' : list Z) (t1 t2 : string) :
  (vectorToStr v ++ t1 = vectorToStr v' ++ t2)%string ->
  v = v' /\ t1 = t2.
Proof.
  destruct v as [|x xs]; destruct v' as [|y ys];
    rewrite ?vectorToStr_cons;
    change (vectorToStr []) with "[]"; cbn [String.append]; intros E;
    injection E as E.
  - now split.
  - exfalso. destruct (Itoa_head y) as [c [rest [Ey Hc]]].
    rewrite Ey in E. cbn [String.append] in E. injection E as Ec _.
    subst c. discriminate Hc.
  - exfalso. destruct (Itoa_head x) as [c [rest [Ex Hc]]].
    rewrite Ex in E. cbn [String.append] in E. injection E as Ec _.
    subst c. discriminate Hc.
  - rewrite !string_app_assoc in E.
    destruct (delimited_prefix numeral_char _ _ _ _
                (Itoa_numeral x) (Itoa_numeral y)
                (vector_rest_starts xs t1) (vector_rest_starts ys t2) E)
      as [Ex Er].
    apply Itoa_inj in Ex. subst y.
    destruct (vector_rest_delimited xs ys t1 t2 Er) as [-> ->]. now split.
Qed.

Lemma vectorToStr_delimited_nil (v v' : list Z) :
  vectorToStr v = vectorToStr v' -> v = v'.
Proof.
  intros E.
  destruct (vectorToStr_delimited v v' "" "") as [H _]; [|exact H].
  now rewrite !string_app_nil_r.
Qed.

End ReadBack.

(** X12. The rendering of a vector determines the vector: two target
    vectors with the same rendering are equal. *)
Theorem vectorToStr_injective (v v' : list Z) :
  vectorToStr v = vectorToStr v' -> v = v'.
Proof. apply vectorToStr_delimited_nil. Qed.

Lemma vectorToStr_injective_witness : [1; 0; -12] = [1; 0; -12].
Proof.
  apply (vectorToStr_injective [1; 0; -12] [1; 0; -12]). reflexivity.
Defined.

Section ReadBackGates.

Lemma gatesToStr_concat (gates : list circuit.Gate) :
  gatesToStr gates = Some (String.concat ", " (map gateS (rev gates))).
Proof.
  unfold gatesToStr. rewrite gatesToStr_loop_spec by lia.
  now rewrite firstn_all, Join_concat.
Qed.

Lemma string_app_cancel_l (p a b : string) :
  (p ++ a = p ++ b)%string -> a = b.
Proof.
  induction p as [|c p IH]; simpl; intros E; [exact E|].
  injection E as E. exact (IH E).
Qed.

(** The rendering of a gate of a known type ends where its closing
    parenthesis is. *)
Lemma gateS_delimited (g g' : circuit.Gate) (t1 t2 : string) :
  recognized g -> recognized g' ->
  (gateS g ++ t1 = gateS g' ++ t2)%string ->
  g = g' /\ t1 = t2.
Proof.
  intros Hg Hg' E.
  assert (H : circuit.TypeName g = circuit.TypeName g'
              /\ ((vectorToStr (circuit.TargetBits g)
                   ++ ", " ++ vectorToStr (circuit.ControlBits g)
                   ++ ")" ++ t1)
                  = (vectorToStr (circuit.TargetBits g')
                     ++ ", " ++ vectorToStr (circuit.ControlBits g')
                     ++ ")" ++ t2))%string).
  { unfold gateS in E.
    remember (vectorToStr (circuit.TargetBits g)) as a eqn:Ea.
    remember (vectorToStr (circuit.ControlBits g)) as b eqn:Eb.
    remember (vectorToStr (circuit.TargetBits g')) as a' eqn:Ea'.
    remember (vectorToStr (circuit.ControlBits g')) as b' eqn:Eb'.
    clear Ea Eb Ea' Eb'.
    rewrite !string_app_assoc in E.
    destruct Hg as [Hn|Hn]; destruct Hg' as [Hn'|Hn'];
      rewrite Hn, Hn' in *; cbn [String.append] in E;
      try discriminate E;
      (split; [reflexivity|]);
      repeat match type of E with
             | String _ _ = String _ _ => injection E as E
             end;
      exact E. }
  destruct H as [Hname E'].
  destruct (vectorToStr_delimited _ _ _ _ E') as [Ht E''].
  apply string_app_cancel_l in E''.
  destruct (vectorToStr_delimited _ _ _ _ E'') as [Hc E3].
  apply string_app_cancel_l in E3.
  split; [|exact E3].
  destruct g, g'; simpl in *; now subst.
Qed.

Lemma gateS_nonempty (g : circuit.Gate) : recognized g -> gateS g <> "".
Proof.
  unfold gateS. intros [E|E]; rewrite E; discriminate.
Qed.

Lemma concat_gates_rest (g : circuit.Gate) (gs : list circuit.Gate) :
  String.concat ", " (map gateS (g :: gs))
  = (gateS g ++ gates_rest gs)%string.
Proof.
  revert g; induction gs as [|g' gs IH]; intros g.
  - simpl. now rewrite string_app_nil_r.
  - change (String.concat ", " (map gateS (g :: g' :: gs)))
      with (gateS g ++ ", " ++ String.concat ", " (map gateS (g' :: gs)))%string.
    now rewrite IH.
Qed.

Lemma gates_rest_inj (gs gs' : list circuit.Gate) :
  Forall recognized gs -> Forall recognized gs' ->
  gates_rest gs = gates_rest gs' -> gs = gs'.
Proof.
  intros H; revert gs'; induction H as [|g gs Hg _ IH];
    intros gs' H'; destruct H' as [|g' gs' Hg' H']; intros E;
    cbn [gates_rest String.append] in E; try discriminate E.
  - reflexivity.
  - injection E as E.
    destruct (gateS_delimited g g' _ _ Hg Hg' E) as [-> Er].
    now rewrite (IH gs' H' Er).
Qed.

Lemma concat_gates_inj (gs gs' : list circuit.Gate) :
  Forall recognized gs -> Forall recognized gs' ->
  String.concat ", " (map gateS gs) = String.concat ", " (map gateS gs') ->
  gs = gs'.
Proof.
  intros H H'.
  destruct H as [|g gs Hg H]; destruct H' as [|g' gs' Hg' H'];
    rewrite ?concat_gates_rest; intros E.
  - reflexivity.
  - exfalso. apply (gateS_nonempty g' Hg').
    simpl in E. destruct (gateS g'); [reflexivity | discriminate E].
  - exfalso. apply (gateS_nonempty g Hg).
    simpl in E. destruct (gateS g); [reflexivity | discriminate E].
  - destruct (gateS_delimited g g' _ _ Hg Hg' E) as [-> Er].
    now rewrite (gates_rest_inj gs gs' H H' Er).
Qed.

Lemma gatesToStr_inj (gs gs' : list circuit.Gate) :
  Forall recognized gs -> Forall recognized gs' ->
  gatesToStr gs = gatesToStr gs' -> gs = gs'.
Proof.
  intros H H' E. rewrite !gatesToStr_concat in E. injection E as E.
  apply concat_gates_inj in E; try (apply Forall_rev; assumption).
  rewrite <- (rev_involutive gs), E. apply rev_involutive.
Qed.

End ReadBackGates.

(** X13. The rendering of a sequence of controlled-NOT and Fredkin gates
    determines the sequence: type, target bits and control bits of every
    gate, and their order. *)
Theorem gatesToStr_injective (gs gs' : list circuit.Gate) :
  Forall recognized gs -> Forall recognized gs' ->
  gatesToStr gs = gatesToStr gs' -> gs = gs'.
Proof. apply gatesToStr_inj. Qed.

(** X15. The record written for a solution of controlled-NOT and Fredkin
    gates determines the identifier and the solution: cost, target vector
    and gate sequence can be read back from it. *)
Theorem SaveSolution_input_injective (id id' : string) (s s' : Solution) :
  Forall recognized (SolGates s) -> Forall recognized (SolGates s') ->
  SaveSolution_input id s = SaveSolution_input id' s' ->
  id = id' /\ s = s'.
Proof.
  intros Hg Hg' E. unfold SaveSolution_input in E.
  rewrite !gatesToStr_concat in E. cbv zeta in E.
  remember (vectorToStr (SolTargetVector s)) as a eqn:Ha.
  remember (vectorToStr (SolTargetVector s')) as a' eqn:Ha'.
  remember (strconv.Itoa (QuantumCost s)) as q eqn:Hq.
  remember (strconv.Itoa (QuantumCost s')) as q' eqn:Hq'.
  remember (String.concat ", " (map gateS (rev (SolGates s)))) as t eqn:Ht.
  remember (String.concat ", " (map gateS (rev (SolGates s')))) as t'
    eqn:Ht'.
  injection E as Eid Ev Eq Eg. subst a a' q q' t t'.
  split; [exact Eid|].
  apply vectorToStr_delimited_nil in Ev.
  apply Itoa_inj in Eq.
  assert (Egs : SolGates s = SolGates s').
  { apply (gatesToStr_inj _ _ Hg Hg'). now rewrite !gatesToStr_concat, Eg. }
  destruct s, s'; simpl in *; now subst.
Qed.

(** X16. Every solution handed over during a campaign is written, whatever
    its identifier, under the same sort key, the rendering of the input's
    target vector, and with the decimal rendering of a cost that is the
    cost of its gates and at most the target cost. *)
Theorem campaign_rows_share_sort_key (w : World) (inp : Input) (n : nat)
    (s : Solution) (err : option string) (id : string) :
  In (EvSaveSolution s err) (emitted (main w inp n)) ->
  exists input qc,
    SaveSolution_input id s = Some input
    /\ attribute (dynamodb.Item input) dynamoDBSortKey
       = Some (awstypes.AttributeValueMemberS
                 (vectorToStr (TargetVector inp)))
    /\ attribute (dynamodb.Item input) dynamoDBQCKey
       = Some (awstypes.AttributeValueMemberN (strconv.Itoa qc))
    /\ calcQuantumCost (SolGates s) = Returns qc
    /\ qc <= TargetQuantumCost inp.
Proof.
  intros Hin.
  destruct (iterations_hands_over w inp n [] s err Hin)
    as [c [res [pre [post [_ [_ [_ [Hq [Ht Hs]]]]]]]]].
  unfold SaveSolution_input. rewrite gatesToStr_concat.
  eexists. exists (QuantumCost s).
  split; [reflexivity|].
  split; [rewrite Hs at 1; reflexivity|].
  split; [reflexivity|].
  split; [|exact Ht].
  rewrite Hs at 1. exact Hq.
Qed.

(** X17. A result that passes the complexity test but holds a gate of
    unknown type ends the campaign in its step: the integrity error
    naming the first such gate is the last event, whatever the target
    cost, and nothing is handed to the repository. *)
Theorem unknown_gate_aborts_step (w : World) (inp : Input) (c : AlgConfig)
    (h : list Event) (pre post : list circuit.Gate) (g : circuit.Gate) :
  aco.Complexity (synthesised w inp c h) <= 0 ->
  aco.Gates (synthesised w inp c h) = pre ++ g :: post ->
  Forall recognized pre ->
  ~ recognized g ->
  runConfig w inp c h
  = {| emitted :=
         [EvLog "Running next config";
          EvSynthesise (acoConf c) gateFactories (truthVector inp)
            (synthesised w inp c h);
          EvFatal ("unknown gate type: " ++ circuit.TypeName g)%string];
       result := None |}.
Proof.
  intros Hcx Hgates Hpre Hg.
  pose proof (cost_stops_at_unknown pre post g Hpre Hg) as Hfatal.
  rewrite <- Hgates in Hfatal.
  destruct (runConfig_cases w inp c h) as
    [res -> Hc | res line -> Hc Hq | res qc -> Hc Hq Ht
     | res qc -> Hc Hq Ht Hs | res qc e -> Hc Hq Ht Hs];
    try lia; try congruence.
  rewrite Hfatal in Hq. injection Hq as <-. reflexivity.
Qed.

(** Without the restriction to the two known gate types the rendering of
    a gate sequence is ambiguous: a type name may hold the separators. *)
Example gatesToStr_ambiguous :
  gatesToStr [{| circuit.TypeName := "a"; circuit.TargetBits := [];
                 circuit.ControlBits := [] |};
              {| circuit.TypeName := "a"; circuit.TargetBits := [];
                 circuit.ControlBits := [] |}]
  = gatesToStr [{| circuit.TypeName := "a([], []), a";
                   circuit.TargetBits := []; circuit.ControlBits := [] |}].
Proof. reflexivity. Qed.

Lemma gatesToStr_injective_witness :
  [cnot_gate; fredkin_gate] = [cnot_gate; fredkin_gate].
Proof.
  apply (gatesToStr_injective [cnot_gate; fredkin_gate]
           [cnot_gate; fredkin_gate]).
  - apply Forall_cons; [left; reflexivity|].
    apply Forall_cons; [right; reflexivity | apply Forall_nil].
  - apply Forall_cons; [left; reflexivity|].
    apply Forall_cons; [right; reflexivity | apply Forall_nil].
  - reflexivity.
Defined.

Lemma SaveSolution_input_injective_witness :
  "0b5c" = "0b5c"
  /\ {| QuantumCost := 6; SolTargetVector := [0; 1; 3; 2];
        SolGates := [cnot_gate; fredkin_gate] |}
     = {| QuantumCost := 6; SolTargetVector := [0; 1; 3; 2];
          SolGates := [cnot_gate; fredkin_gate] |}.
Proof.
  apply (SaveSolution_input_injective "0b5c" "0b5c"
           {| QuantumCost := 6; SolTargetVector := [0; 1; 3; 2];
              SolGates := [cnot_gate; fredkin_gate] |}
           {| QuantumCost := 6; SolTargetVector := [0; 1; 3; 2];
              SolGates := [cnot_gate; fredkin_gate] |}).
  - apply Forall_cons; [left; reflexivity|].
    apply Forall_cons; [right; reflexivity | apply Forall_nil].
  - apply Forall_cons; [left; reflexivity|].
    apply Forall_cons; [right; reflexivity | apply Forall_nil].
  - reflexivity.
Defined.

Lemma campaign_rows_share_sort_key_witness :
  exists input qc,
    SaveSolution_input "0b5c"
      {| QuantumCost := 1; SolTargetVector := [0; 1; 3; 2];
         SolGates := [cnot_gate] |} = Some input
    /\ attribute (dynamodb.Item input) dynamoDBSortKey
       = Some (awstypes.AttributeValueMemberS
                 (vectorToStr (TargetVector sample_input)))
    /\ attribute (dynamodb.Item input) dynamoDBQCKey
       = Some (awstypes.AttributeValueMemberN (strconv.Itoa qc))
    /\ calcQuantumCost [cnot_gate] = Returns qc
    /\ qc <= TargetQuantumCost sample_input.
Proof.
  apply (campaign_rows_share_sort_key (constant_world result_A None)
           sample_input 1
           {| QuantumCost := 1; SolTargetVector := [0; 1; 3; 2];
              SolGates := [cnot_gate] |} None "0b5c").
  vm_compute. do 3 right. left. reflexivity.
Defined.

Lemma unknown_gate_aborts_step_witness :
  runConfig
    (constant_world {| aco.Complexity := 0;
                       aco.Gates := [cnot_gate; toffoli_gate; fredkin_gate] |}
       None)
    sample_input sample_config []
  = {| emitted :=
         [EvLog "Running next config";
          EvSynthesise (acoConf sample_config) gateFactories
            (truthVector sample_input)
            {| aco.Complexity := 0;
               aco.Gates := [cnot_gate; toffoli_gate; fredkin_gate] |};
          EvFatal "unknown gate type: toffoli"];
       result := None |}.
Proof.
  apply (unknown_gate_aborts_step
           (constant_world
              {| aco.Complexity := 0;
                 aco.Gates := [cnot_gate; toffoli_gate; fredkin_gate] |}
              None)
           sample_input sample_config [] [cnot_gate] [fredkin_gate]
           toffoli_gate).
  - simpl. lia.
  - reflexivity.
  - apply Forall_cons; [left; reflexivity | apply Forall_nil].
  - unfold recognized. simpl. intros [H|H]; discriminate H.
Defined.
